(** * Two small programs: a student grade analyzer and a book collection API

    [src/lecture_3/main.py] is a console program that keeps a list of
    students with their grades; [src/lecture_5/book_api/main.py] is a REST
    service over one table [books].  Each program is embedded in a module
    of its own; the properties proved about it follow in a module of facts. *)

From Stdlib Require Import ZArith QArith Qabs Qround Qpower Lqa String Ascii List DecimalString.
From stdpp Require Import gmap strings list fin_maps sorting.

Local Open Scope Z_scope.
Local Open Scope string_scope.

(** ** Python and SQL primitives shared by the two programs *)

(** [str.lower] on ASCII text: the letters A-Z go to a-z, every other
    character stays. *)
Definition ascii_lower (c : ascii) : ascii :=
  let n := nat_of_ascii c in
  if ((65 <=? n) && (n <=? 90))%nat then ascii_of_nat (n + 32) else c.

Fixpoint lower (s : string) : string :=
  match s with
  | EmptyString => EmptyString
  | String c s' => String (ascii_lower c) (lower s')
  end.

(** Python truthiness of the values the programs test with [if x:] and
    [if not x:]. *)
Definition truthy_str (s : string) : bool :=
  match s with EmptyString => false | _ => true end.

Definition truthy_int (n : Z) : bool := negb (Z.eqb n 0).

(** [str(n)] of an [int]. *)
Definition str_of_int (n : Z) : string := NilZero.string_of_int (Z.to_int n).

(** ** The student grade analyzer, [src/lecture_3/main.py] *)

Module GradeAnalyzer.

(** *** Python values and built-ins the program uses *)

(** Python's [float]s are kept as the rationals they denote.  The two
    operations whose result is rounded are left to the interpreter:
    [fl q] is the float that true division returns for the exact quotient
    [q], and [float_sum l] is what [sum] returns on a list of floats.
    Quotients are taken to be in the range of floats, as the means of
    grades are: overflow is not modelled. *)
Class Float64 := {
  fl : Q → Q;
  float_sum : list Q → Q }.

(** Exact arithmetic is one such interpretation. *)
Definition exact : Float64 :=
  {| fl := λ q, q; float_sum := foldr Qplus (0 : Q) |}.

Inductive exception :=
| EOFError
| ZeroDivisionError
| ValueError (message : string).

(** [str(e)] of the exceptions above. *)
Definition exception_text (e : exception) : string :=
  match e with
  | EOFError => "EOF when reading a line"
  | ZeroDivisionError => "division by zero"
  | ValueError message => message
  end.

(** [a < b] and [a > b] on floats. *)
Definition Qltb (a b : Q) : bool :=
  match Qcompare a b with Lt => true | _ => false end.

(** [str.isspace] on ASCII text: tab to carriage return, the four
    separators 28-31 and the space. *)
Definition is_space (c : ascii) : bool :=
  let n := nat_of_ascii c in
  ((9 <=? n) && (n <=? 13) || (28 <=? n) && (n <=? 32))%nat.

Fixpoint lstrip (s : string) : string :=
  match s with
  | EmptyString => EmptyString
  | String c s' => if is_space c then lstrip s' else s
  end.

Fixpoint rstrip (s : string) : string :=
  match s with
  | EmptyString => EmptyString
  | String c s' =>
      match rstrip s' with
      | EmptyString => if is_space c then EmptyString else String c EmptyString
      | r => String c r
      end
  end.

(** [s.strip()]. *)
Definition strip (s : string) : string := rstrip (lstrip s).

Definition digit_value (c : ascii) : option Z :=
  let n := nat_of_ascii c in
  if ((48 <=? n) && (n <=? 57))%nat then Some (Z.of_nat (n - 48)) else None.

(** The digits of a decimal literal: at least one digit, and single
    underscores only between two digits. *)
Fixpoint digits (s : string) (acc : Z) (after_digit : bool) : option Z :=
  match s with
  | EmptyString => if after_digit then Some acc else None
  | String c s' =>
      match digit_value c with
      | Some d => digits s' (10 * acc + d) true
      | None =>
          if Ascii.eqb c "_" && after_digit then digits s' acc false else None
      end
  end.

(** [int(s)] on a stripped ASCII string; [None] is [ValueError].  The
    bound on the number of digits that recent interpreters put on the
    conversion is left out. *)
Definition py_int (s : string) : option Z :=
  match s with
  | String "-" s' => Z.opp <$> digits s' 0 false
  | String "+" s' => digits s' 0 false
  | _ => digits s 0 false
  end.

(** [sum(l)] of a list of [int]s. *)
Definition sum (l : list Z) : Z := fold_left Z.add l 0.

(** [len(l)]. *)
Definition len {A} (l : list A) : Z := Z.of_nat (length l).

(** [a / b] on [int]s. *)
Definition truediv `{Float64} (a b : Z) : exception + Q :=
  if Z.eqb b 0 then inl ZeroDivisionError
  else inr (fl (inject_Z a / inject_Z b)).

(** [x / n] for a float [x] and an [int] [n], which is a float as it is
    when it is the length of a list. *)
Definition float_div `{Float64} (x : Q) (n : Z) : exception + Q :=
  if Z.eqb n 0 then inl ZeroDivisionError
  else inr (fl (x / inject_Z n)).

(** [max(l)] and [min(l)] of a list of floats: the first item is kept
    until a later one is greater (smaller). *)
Definition py_max (l : list Q) : exception + Q :=
  match l with
  | [] => inl (ValueError "max() iterable argument is empty")
  | x :: l' => inr (fold_left (λ m y, if Qltb m y then y else m) l' x)
  end.

Definition py_min (l : list Q) : exception + Q :=
  match l with
  | [] => inl (ValueError "min() iterable argument is empty")
  | x :: l' => inr (fold_left (λ m y, if Qltb y m then y else m) l' x)
  end.

(** [max(l, key=f)]: the key of every item is computed once, in order;
    the first item is kept until a later one has a greater key. *)
Fixpoint max_from {A} (key : A → exception + Q) (best : A) (best_key : Q)
    (l : list A) : exception + A :=
  match l with
  | [] => inr best
  | x :: l' =>
      match key x with
      | inl e => inl e
      | inr k =>
          if Qltb best_key k then max_from key x k l'
          else max_from key best best_key l'
      end
  end.

Definition py_max_key {A} (key : A → exception + Q) (l : list A) : exception + A :=
  match l with
  | [] => inl (ValueError "max() iterable argument is empty")
  | x :: l' =>
      match key x with
      | inl e => inl e
      | inr k => max_from key x k l'
      end
  end.

(** Rounding to the nearest integer, a tie going to the even one. *)
Definition round_half_even (q : Q) : Z :=
  let f := Qfloor q in
  match Qcompare (q - inject_Z f) (1 # 2) with
  | Lt => f
  | Gt => f + 1
  | Eq => if Z.even f then f else f + 1
  end.

(** The format [{x:.1f}] shows [x] rounded to the nearest tenth:
    [tenths x] is that number of tenths of [|x|]. *)
Definition tenths (x : Q) : Z := round_half_even (Qabs x * 10).

Definition fmt1 (x : Q) : string :=
  ((if Qltb x 0 then "-" else "")
   ++ str_of_int (tenths x / 10) ++ "." ++ str_of_int (tenths x mod 10))%string.

(** *** Binary64

    The floats of CPython are IEEE 754 binary64 numbers: 53 bits of
    precision, rounding to nearest, a tie going to the even mantissa.
    [binade q] is the exponent of the power of two at or below a positive
    [q]; [round_pos q] scales [q] to a mantissa between 2^52 and 2^53,
    rounds that to an integer and scales back.  Exponents are not bounded:
    overflow and subnormal numbers are not modelled. *)
Definition binade (q : Q) : Z :=
  let k := Z.log2 (Qnum q) - Z.log2 (Z.pos (Qden q)) in
  if Qle_bool (2 ^ k)%Q q then k else k - 1.

Definition round_pos (q : Q) : Q :=
  let e := binade q - 52 in
  (inject_Z (round_half_even (q / 2 ^ e)%Q) * 2 ^ e)%Q.

(** The double nearest to [q]. *)
Definition round_double (q : Q) : Q :=
  match Qcompare q 0 with
  | Eq => 0%Q
  | Gt => round_pos q
  | Lt => (- round_pos (- q))%Q
  end.

(** Binary64 arithmetic: true division returns the double nearest to the
    quotient, and [sum] adds the floats from left to right, every addition
    rounded ([0 + x] is [x]).  CPython from 3.12 on carries a correction
    term through the sum, which brings the result closer to the exact
    sum. *)
Definition binary64 : Float64 :=
  {| fl := round_double;
     float_sum := λ l, match l with
                       | [] => 0%Q
                       | x :: l' => fold_left (λ acc y, round_double (acc + y)%Q) l' x
                       end |}.

(** *** The program state and the console *)

(** A student: the dict with keys ["name"] and ["grades"]. *)
Record student := {
  name : string;
  grades : list Z }.

(** What the program writes: the prompt of an [input(...)] call or the
    line of a [print(...)] call. *)
Inductive event :=
| Prompt (text : string)
| Print (line : string).

(** A call of one of the program's functions on the list [students], with
    the lines still to be read from the console: the list as the call
    leaves it, the lines it did not read, what it wrote, and the exception
    it raised, if any.  The list is a shared object: what a call appended
    before it raised stays. *)
Record run := {
  students_after : list student;
  stdin_after : list string;
  stdout : list event;
  raised : option exception }.

(** The condition of both name loops:
    [student["name"].lower() == name.lower()]. *)
Definition same_name (n : string) (s : student) : bool :=
  String.eqb (lower (name s)) (lower n).

(** [for student in students: if <same name>: ... break]: the first
    student with that name, with its position in the list. *)
Fixpoint find_student (n : string) (students : list student) : option (nat * student) :=
  match students with
  | [] => None
  | s :: rest =>
      if same_name n s then Some (0%nat, s)
      else prod_map S id <$> find_student n rest
  end.

(** *** The program *)

(** [add_new_student(students)]. *)
Definition add_new_student (students : list student) (stdin : list string) : run :=
  match stdin with
  | [] =>
      {| students_after := students; stdin_after := [];
         stdout := [Prompt "Enter student name: "]; raised := Some EOFError |}
  | line :: stdin =>
      let n := strip line in
      let finish students out :=
        {| students_after := students; stdin_after := stdin;
           stdout := [Prompt "Enter student name: "; Print out]; raised := None |} in
      if negb (truthy_str n) then
        finish students "Error: Student name cannot be empty."
      else
        match find_student n students with
        | Some _ => finish students ("Student '" ++ n ++ "' already exists.")
        | None =>
            let new_student := {| name := n; grades := [] |} in
            finish (students ++ [new_student])%list ("Student '" ++ n ++ "' added successfully.")
        end
  end.

(** The prompt of the grade loop. *)
Definition grade_prompt : event := Prompt "Enter a grade (or 'done' to finish): ".

(** The loop [while True:] of [add_grades_for_student], on the grades of
    the student found: the grades after the loop, the lines not read, what
    was written, and whether the loop ended on [break] ([None]) or on the
    end of the input. *)
Fixpoint grade_loop (stdin : list string) (gs : list Z)
    : list Z * list string * list event * option exception :=
  let prompt := grade_prompt in
  match stdin with
  | [] => (gs, [], [prompt], Some EOFError)
  | line :: stdin =>
      let grade_input := strip line in
      let continue gs out :=
        let '(gs', stdin', written, e) := grade_loop stdin gs in
        (gs', stdin', prompt :: Print out :: written, e) in
      if negb (truthy_str grade_input) then
        continue gs "Error: Input cannot be empty. Please enter a grade or 'done'."
      else if String.eqb (lower grade_input) "done" then
        (gs, stdin, [prompt], None)
      else
        match py_int grade_input with
        | Some grade =>
            if (grade <? 0)%Z || (grade >? 100)%Z then
              continue gs "Invalid grade. Please enter a number between 0 and 100."
            else
              continue (gs ++ [grade])%list ("Grade " ++ str_of_int grade ++ " added successfully.")
        | None => continue gs "Invalid input. Please enter a number."
        end
  end.

(** [add_grades_for_student(students)]. *)
Definition add_grades_for_student (students : list student) (stdin : list string) : run :=
  match stdin with
  | [] =>
      {| students_after := students; stdin_after := [];
         stdout := [Prompt "Enter student name: "]; raised := Some EOFError |}
  | line :: stdin =>
      let n := strip line in
      let finish out :=
        {| students_after := students; stdin_after := stdin;
           stdout := [Prompt "Enter student name: "; Print out]; raised := None |} in
      if negb (truthy_str n) then
        finish "Error: Student name cannot be empty."
      else
        match find_student n students with
        | None => finish ("Student '" ++ n ++ "' not found.")
        | Some (i, student_found) =>
            let '(gs, stdin', written, e) := grade_loop stdin (grades student_found) in
            {| students_after :=
                 <[i := {| name := name student_found; grades := gs |}]> students;
               stdin_after := stdin';
               stdout :=
                 Prompt "Enter student name: "
                 :: Print ("Adding grades for " ++ name student_found
                           ++ ". Enter 'done' to finish.")
                 :: written;
               raised := e |}
        end
  end.

(** The loop [for student in students:] of [show_report]: the lines it
    prints and the list [averages] after it. *)
Fixpoint report_loop `{Float64} (students : list student) (averages : list Q)
    : list event * list Q :=
  match students with
  | [] => ([], averages)
  | student :: rest =>
      let not_available := Print (name student ++ "'s average grade is N/A.") in
      match grades student with
      | [] =>
          let '(written, averages) := report_loop rest averages in
          (not_available :: written, averages)
      | _ :: _ =>
          match truediv (sum (grades student)) (len (grades student)) with
          | inr average =>
              let '(written, averages) := report_loop rest (averages ++ [average])%list in
              (Print (name student ++ "'s average grade is " ++ fmt1 average ++ ".")
                 :: written, averages)
          | inl _ =>
              let '(written, averages) := report_loop rest averages in
              (not_available :: written, averages)
          end
      end
  end.

(** The statistics at the end of [show_report]; an exception of [max],
    [min] or the division leaves the function. *)
Definition summary `{Float64} (averages : list Q) : list event * option exception :=
  match averages with
  | [] => ([Print "No students with grades available for summary statistics."], None)
  | _ :: _ =>
      match py_max averages, py_min averages,
            float_div (float_sum averages) (len averages) with
      | inr max_avg, inr min_avg, inr overall_avg =>
          ([Print "---";
            Print ("Max Average: " ++ fmt1 max_avg);
            Print ("Min Average: " ++ fmt1 min_avg);
            Print ("Overall Average: " ++ fmt1 overall_avg)], None)
      | inl e, _, _ | _, inl e, _ | _, _, inl e => ([], Some e)
      end
  end.

Definition newline : string := String "010" EmptyString.

(** [show_report(students)]. *)
Definition show_report `{Float64} (students : list student) (stdin : list string) : run :=
  match students with
  | [] =>
      {| students_after := students; stdin_after := stdin;
         stdout := [Print "No students available."]; raised := None |}
  | _ :: _ =>
      let '(written, averages) := report_loop students [] in
      let '(stats, e) := summary averages in
      {| students_after := students; stdin_after := stdin;
         stdout := Print (newline ++ "--- Student Report ---") :: (written ++ stats)%list;
         raised := e |}
  end.

(** The key of [max] in [find_top_performer]:
    [sum(student["grades"]) / len(student["grades"])]. *)
Definition average `{Float64} (student : student) : exception + Q :=
  truediv (sum (grades student)) (len (grades student)).

(** [find_top_performer(students)]: whatever the [try] block raises is
    caught and printed. *)
Definition find_top_performer `{Float64} (students : list student) (stdin : list string) : run :=
  let students_with_grades :=
    filter (λ s, grades s ≠ []) students in
  let finish out :=
    {| students_after := students; stdin_after := stdin;
       stdout := [Print out]; raised := None |} in
  match students_with_grades with
  | [] => finish "No students with grades available."
  | _ :: _ =>
      match py_max_key average students_with_grades with
      | inl e => finish ("Error finding top performer: " ++ exception_text e)
      | inr top_student =>
          match average top_student with
          | inl e => finish ("Error finding top performer: " ++ exception_text e)
          | inr top_average =>
              finish ("The student with the highest average is " ++ name top_student
                      ++ " with a grade of " ++ fmt1 top_average ++ ".")
          end
      end
  end.

(** The menu printed at each turn of the loop of [main]. *)
Definition menu : list event :=
  [Print (newline ++ "--- Student Grade Analyzer ---");
   Print "1. Add a new student";
   Print "2. Add grades for a student";
   Print "3. Show report (all students)";
   Print "4. Find top performer";
   Print "5. Exit";
   Prompt "Enter your choice: "].

(** How the run of [main_loop] is left: [break] on choice 5, the console
    has no more line for an [input(...)] of the loop, or the turns allowed
    to the loop are used up.  Only [Exited] is an end of the program: at
    [NoInput] the program waits for a line, and at the end of a file
    [input] raises [EOFError], which the loop prints and repeats for ever;
    the run is followed up to that point. *)
Inductive ending :=
| Exited
| NoInput
| OutOfFuel.

(** The loop [while True:] of [main], for at most [fuel] turns.  Every
    exception a choice raises is caught by [except Exception] and printed;
    the loop goes on. *)
Fixpoint main_loop `{Float64} (fuel : nat) (students : list student) (stdin : list string)
    : list student * list event * ending :=
  match fuel with
  | O => (students, [], OutOfFuel)
  | S fuel =>
      match stdin with
      | [] => (students, menu, NoInput)
      | line :: stdin =>
          let choice := strip line in
          let continue students stdin out :=
            let '(students', written, how) := main_loop fuel students stdin in
            (students', (menu ++ out ++ written)%list, how) in
          let call (r : run) :=
            continue (students_after r) (stdin_after r)
              (stdout r ++
               match raised r with
               | Some e => [Print ("An error occurred: " ++ exception_text e)]
               | None => []
               end)%list in
          if negb (truthy_str choice) then
            continue students stdin
              [Print "Error: Choice cannot be empty. Please enter a number between 1-5."]
          else if String.eqb choice "1" then call (add_new_student students stdin)
          else if String.eqb choice "2" then call (add_grades_for_student students stdin)
          else if String.eqb choice "3" then call (show_report students stdin)
          else if String.eqb choice "4" then call (find_top_performer students stdin)
          else if String.eqb choice "5" then
            (students, (menu ++ [Print "Exiting program."])%list, Exited)
          else
            continue students stdin
              [Print "Invalid choice. Please enter a number between 1-5."]
      end
  end.

(** [main()] on the lines the console supplies: every turn of the loop
    reads at least one line, so one turn more than there are lines is
    enough. *)
Definition main `{Float64} (stdin : list string) : list student * list event * ending :=
  main_loop (S (length stdin)) [] stdin.

(** *** Notions the properties are stated with *)

(** The arithmetic mean of a list of grades. *)
Definition mean (gs : list Z) : Q := inject_Z (sum gs) / inject_Z (len gs).

(** The arithmetic mean as mathematics has it: the total of the numbers
    over how many they are. *)
Definition total (gs : list Z) : Z := foldr Z.add 0 gs.

Definition arithmetic_mean (gs : list Z) : Q :=
  inject_Z (total gs) / inject_Z (Z.of_nat (length gs)).

(** The sum of a list of rationals, and the sum of their absolute values. *)
Definition Qsum (l : list Q) : Q := foldr Qplus (0 : Q) l.

Definition Qsum_abs (l : list Q) : Q := foldr (λ x acc, Qabs x + acc)%Q (0 : Q) l.

(** The unit roundoff of binary64, 2^-53. *)
Definition unit_roundoff : Q := 1 # 9007199254740992.

(** What float arithmetic guarantees of true division: the result depends
    on the value of the quotient only, and its relative error is at most
    the unit roundoff. *)
Record division_rounds (F : Float64) : Prop := {
  fl_value : ∀ a b, (a == b)%Q → (fl a == fl b)%Q;
  fl_near : ∀ q, (Qabs (fl q - q) <= Qabs q * unit_roundoff)%Q }.

(** What it guarantees of [sum] on [n] floats: the error is at most
    [(1 + u)^n - 1] times the sum of the absolute values, the bound of
    adding from left to right. *)
Definition sum_rounds (F : Float64) : Prop :=
  ∀ l, (Qabs (float_sum l - Qsum l)
        <= ((1 + unit_roundoff) ^ Z.of_nat (length l) - 1) * Qsum_abs l)%Q.

(** The grade an entry of the grade loop stands for: the entry reads as an
    integer between 0 and 100. *)
Definition accepted (entry : string) : option Z :=
  match py_int (strip entry) with
  | Some grade => if decide (0 ≤ grade ≤ 100)%Z then Some grade else None
  | None => None
  end.

(** The entry that ends the grade loop: the word done, in any case of
    letters. *)
Definition is_done (entry : string) : Prop := lower (strip entry) = "done".

Global Instance is_done_dec entry : Decision (is_done entry).
Proof. unfold is_done. apply _. Defined.

(** The messages the grade loop prints for an entry it turns down. *)
Definition grade_errors : list string :=
  ["Error: Input cannot be empty. Please enter a grade or 'done'.";
   "Invalid grade. Please enter a number between 0 and 100.";
   "Invalid input. Please enter a number."].

(** What the grade loop prints for an entry that does not end it. *)
Definition replied (entry reply : string) : Prop :=
  match accepted entry with
  | Some grade => reply = "Grade " ++ str_of_int grade ++ " added successfully."
  | None => reply ∈ grade_errors
  end.

(** Every grade of every student is between 0 and 100. *)
Definition grades_in_range (students : list student) : Prop :=
  Forall (λ s, Forall (λ g, (0 ≤ g ≤ 100)%Z) (grades s)) students.

(** The four choices of the menu that call a function. *)
Definition menu_call `{Float64} (choice : string) (students : list student)
    (stdin : list string) : option run :=
  if String.eqb choice "1" then Some (add_new_student students stdin)
  else if String.eqb choice "2" then Some (add_grades_for_student students stdin)
  else if String.eqb choice "3" then Some (show_report students stdin)
  else if String.eqb choice "4" then Some (find_top_performer students stdin)
  else None.

(** Sample data. *)
Definition class_of_three : list student :=
  [{| name := "Ann"; grades := [70] |};
   {| name := "Bob"; grades := [85; 86] |};
   {| name := "Cy"; grades := [86; 85] |}].

(** One student whose mean, 1707/20 = 85.35, is halfway between two
    tenths. *)
Definition half_way : list student :=
  [{| name := "Zed"; grades := 92 :: replicate 19 85 |}].

(** The names of a list of students are in order: none is empty, none has
    white space around it, and no two are the same up to the case of
    letters. *)
Definition names_in_order (students : list student) : Prop :=
  Forall (λ s, name s ≠ "" ∧ strip (name s) = name s) students
  ∧ NoDup ((λ s, lower (name s)) <$> students).

(** The list [after] keeps the students of [before]: each is at its
    place, under its name, with its grades and possibly more after them. *)
Definition kept (before after : list student) : Prop :=
  ∀ i s, before !! i = Some s →
         ∃ s', after !! i = Some s' ∧ name s' = name s ∧ grades s `prefix_of` grades s'.

(** A string that does not begin with white space. *)
Definition no_lead (s : string) : Prop :=
  match s with EmptyString => True | String c _ => is_space c = false end.

End GradeAnalyzer.

(** ** The book collection API, [src/lecture_5/book_api/main.py] *)

Module BookApi.

(** A member of a JSON request body: left out, given as [null], or given
    with a value of the declared type. *)
Inductive member (A : Type) : Type :=
| Missing
| Null
| Given (a : A).
Arguments Missing {A}.
Arguments Null {A}.
Arguments Given {A} a.

(** The JSON object a client sends to POST /books/ and PUT /books/{id}. *)
Record body := {
  j_title : member string;
  j_author : member string;
  j_year : member Z }.

(** [class BookCreate(BaseModel)]: title and author are [str] without a
    default, year is [Optional[int] = None]. *)
Record BookCreate := {
  bc_title : string;
  bc_author : string;
  bc_year : option Z }.

(** [class BookUpdate(BaseModel)]: every field is [Optional[...] = None]. *)
Record BookUpdate := {
  bu_title : option string;
  bu_author : option string;
  bu_year : option Z }.

(** [class BookResponse(BaseModel)]. *)
Record BookResponse := {
  id : Z;
  title : string;
  author : string;
  year : option Z }.

(** [class BookDB(Base)]: the columns of a row of table [books] other than
    the primary key [id], which is the key of the row in the table. *)
Record BookDB := {
  db_title : string;
  db_author : string;
  db_year : option Z }.

(** The table [books]: rows keyed by [id], the integer primary key. *)
Abbreviation table := (gmap Z BookDB).

Global Instance BookDB_eq_dec : EqDecision BookDB.
Proof. solve_decision. Defined.

Global Instance BookResponse_eq_dec : EqDecision BookResponse.
Proof. solve_decision. Defined.

(** A field declared [Optional[T] = None] reads [None] when the member is
    left out and when it is [null]. *)
Definition optional {A} (m : member A) : option A :=
  match m with
  | Given a => Some a
  | Missing | Null => None
  end.

(** A field declared [T] without a default must be given, and [null] is
    not a [T]: validation fails otherwise. *)
Definition required {A} (m : member A) : option A :=
  match m with
  | Given a => Some a
  | Missing | Null => None
  end.

(** Validation of a request body against [BookCreate]; [None] is the
    validation error the framework answers with status 422. *)
Definition validate_BookCreate (b : body) : option BookCreate :=
  match required (j_title b), required (j_author b) with
  | Some t, Some a =>
      Some {| bc_title := t; bc_author := a; bc_year := optional (j_year b) |}
  | _, _ => None
  end.

(** Validation of a request body against [BookUpdate]: it cannot fail on a
    body whose members have the declared types. *)
Definition validate_BookUpdate (b : body) : BookUpdate :=
  {| bu_title := optional (j_title b);
     bu_author := optional (j_author b);
     bu_year := optional (j_year b) |}.

(** [raise HTTPException(status_code=..., detail=...)]. *)
Record HTTPException := {
  status_code : Z;
  detail : string }.

(** What the client receives. *)
Inductive response (A : Type) : Type :=
| Success (status : Z) (content : A)
| ValidationError
| HTTPError (e : HTTPException).
Arguments Success {A} status content.
Arguments ValidationError {A}.
Arguments HTTPError {A} e.

(** *** The database engine: SQLite behind SQLAlchemy

    [SQLALCHEMY_DATABASE_URL = "sqlite:///./books.db"]. *)

(** [id = Column(Integer, primary_key=True, index=True)] is an INTEGER
    PRIMARY KEY column without AUTOINCREMENT (the table sets no
    [sqlite_autoincrement]): an INSERT that gives no id receives one more
    than the largest id in the table, and 1 in an empty table.  Ids stay
    below the engine's largest integer. *)
Definition next_rowid (db : table) : Z :=
  match (map_to_list db).*1 with
  | [] => 1
  | k :: ks => 1 + foldr Z.max k ks
  end.

(** [LIKE] of SQLite: [%] stands for any run of characters, [_] for any
    one character, any other character for itself up to the case of ASCII
    letters. *)
Fixpoint like (pattern s : string) {struct pattern} : bool :=
  match pattern with
  | EmptyString => match s with EmptyString => true | String _ _ => false end
  | String c p =>
      if Ascii.eqb c "%" then
        (fix skip (s : string) : bool :=
           like p s || match s with
                       | EmptyString => false
                       | String _ s' => skip s'
                       end) s
      else
        match s with
        | EmptyString => false
        | String d s' =>
            (Ascii.eqb c "_" || Ascii.eqb (ascii_lower c) (ascii_lower d))
            && like p s'
        end
  end.

(** [column.contains(other)] of SQLAlchemy renders
    [column LIKE '%' || other || '%']; [other] is not escaped. *)
Definition contains (column other : string) : bool :=
  like ("%" ++ other ++ "%") column.

(** [column == value] in a WHERE clause: a NULL column selects nothing. *)
Definition sql_eq (column : option Z) (value : Z) : bool :=
  match column with
  | Some v => Z.eqb v value
  | None => false
  end.

(** A row as the ORM loads it, with its primary key. *)
Definition from_attributes (row : Z * BookDB) : BookResponse :=
  {| id := row.1;
     title := db_title row.2;
     author := db_author row.2;
     year := db_year row.2 |}.

(** The order in which the engine scans the table: by id. *)
Definition id_le (r1 r2 : Z * BookDB) : Prop := (r1.1 ≤ r2.1)%Z.

Global Instance id_le_dec : RelDecision id_le.
Proof. intros r1 r2. unfold id_le. apply _. Defined.

(** [db.query(BookDB)]: the rows of the table. *)
Definition query (db : table) : list BookResponse :=
  from_attributes <$> merge_sort id_le (map_to_list db).

(** *** The endpoints *)

(** [create_book]: POST /books/ once the body is validated. *)
Definition create_book (book : BookCreate) (db : table) : BookResponse * table :=
  let db_book :=
    {| db_title := bc_title book;
       db_author := bc_author book;
       db_year := bc_year book |} in
  let new_id := next_rowid db in
  (from_attributes (new_id, db_book), <[new_id := db_book]> db).

(** POST /books/ as the framework serves it: validation, then
    [create_book] with status 201. *)
Definition post_books (b : body) (db : table) : response BookResponse * table :=
  match validate_BookCreate b with
  | None => (ValidationError, db)
  | Some book =>
      let '(created, db') := create_book book db in
      (Success 201 created, db')
  end.

(** [get_all_books]: GET /books/. *)
Definition get_all_books (db : table) : list BookResponse := query db.

(** [search_books]: GET /books/search/.  A filter is added under
    [if title:], [if author:], [if year:]. *)
Definition search_books (title_q author_q : option string) (year_q : option Z)
    (db : table) : list BookResponse :=
  let q := query db in
  let q :=
    match title_q with
    | Some t => if truthy_str t then filter (λ b, contains (title b) t) q else q
    | None => q
    end in
  let q :=
    match author_q with
    | Some a => if truthy_str a then filter (λ b, contains (author b) a) q else q
    | None => q
    end in
  let q :=
    match year_q with
    | Some y => if truthy_int y then filter (λ b, sql_eq (year b) y) q else q
    | None => q
    end in
  q.

Definition not_found : HTTPException :=
  {| status_code := 404; detail := "Book not found" |}.

(** [update_book]: PUT /books/{book_id} once the body is validated. *)
Definition update_book (book_id : Z) (book_update : BookUpdate) (db : table)
    : (HTTPException + BookResponse) * table :=
  match db !! book_id with
  | None => (inl not_found, db)
  | Some db_book =>
      let db_book :=
        match bu_title book_update with
        | Some t =>
            {| db_title := t; db_author := db_author db_book; db_year := db_year db_book |}
        | None => db_book
        end in
      let db_book :=
        match bu_author book_update with
        | Some a =>
            {| db_title := db_title db_book; db_author := a; db_year := db_year db_book |}
        | None => db_book
        end in
      let db_book :=
        match bu_year book_update with
        | Some y =>
            {| db_title := db_title db_book; db_author := db_author db_book; db_year := Some y |}
        | None => db_book
        end in
      (inr (from_attributes (book_id, db_book)), <[book_id := db_book]> db)
  end.

(** [delete_book]: DELETE /books/{book_id}. *)
Definition delete_book (book_id : Z) (db : table)
    : (HTTPException + string) * table :=
  match db !! book_id with
  | None => (inl not_found, db)
  | Some _ => (inr "Book deleted successfully", delete book_id db)
  end.

(** PUT /books/{book_id} as the framework serves it. *)
Definition put_books (book_id : Z) (b : body) (db : table)
    : response BookResponse * table :=
  match update_book book_id (validate_BookUpdate b) db with
  | (inl e, db') => (HTTPError e, db')
  | (inr updated, db') => (Success 200 updated, db')
  end.

(** DELETE /books/{book_id} as the framework serves it. *)
Definition delete_books (book_id : Z) (db : table) : response string * table :=
  match delete_book book_id db with
  | (inl e, db') => (HTTPError e, db')
  | (inr message, db') => (Success 200 message, db')
  end.

(** *** Sequences of requests *)

(** A request that can change the table. *)
Inductive request :=
| Create (book : BookCreate)
| Update (book_id : Z) (book_update : BookUpdate)
| Delete (book_id : Z).

(** The table after a request is served. *)
Definition serve (db : table) (r : request) : table :=
  match r with
  | Create book => (create_book book db).2
  | Update book_id book_update => (update_book book_id book_update db).2
  | Delete book_id => (delete_book book_id db).2
  end.

(** The id a request assigns: the one of the record a creation returns. *)
Definition assigned (db : table) (r : request) : option Z :=
  match r with
  | Create book => Some (id (create_book book db).1)
  | Update _ _ | Delete _ => None
  end.

(** The table after a sequence of requests, served in order. *)
Definition serve_all (rs : list request) (db : table) : table :=
  foldl serve db rs.

(** The ids assigned while a sequence of requests is served. *)
Fixpoint assigned_all (rs : list request) (db : table) : list Z :=
  match rs with
  | [] => []
  | r :: rs' =>
      match assigned db r with
      | Some i => i :: assigned_all rs' (serve db r)
      | None => assigned_all rs' (serve db r)
      end
  end.

(** *** The search as the specification words it *)

(** [needle] occurs in [hay], character for character. *)
Fixpoint occurs (needle hay : string) : bool :=
  String.prefix needle hay
  || match hay with
     | EmptyString => false
     | String _ hay' => occurs needle hay'
     end.

(** A book satisfies every filter supplied: title and author by
    case-sensitive substring containment, year by equality. *)
Definition satisfies (title_q author_q : option string) (year_q : option Z)
    (b : BookResponse) : bool :=
  match title_q with Some t => occurs t (title b) | None => true end
  && match author_q with Some a => occurs a (author b) | None => true end
  && match year_q with Some y => bool_decide (year b = Some y) | None => true end.

Definition search_as_specified (title_q author_q : option string) (year_q : option Z)
    (books : list BookResponse) : list BookResponse :=
  filter (λ b, satisfies title_q author_q year_q b) books.

(** A search term without the two characters [LIKE] reads as wildcards. *)
Fixpoint plain (s : string) : bool :=
  match s with
  | EmptyString => true
  | String c s' => negb (Ascii.eqb c "%") && negb (Ascii.eqb c "_") && plain s'
  end.

(** *** Notions the properties are stated with *)

(** The row of the table a listed book comes from. *)
Definition row_of (b : BookResponse) : BookDB :=
  {| db_title := title b; db_author := author b; db_year := year b |}.

(** Sample data. *)
Definition dune : BookCreate :=
  {| bc_title := "Dune"; bc_author := "Herbert"; bc_year := Some 1965 |}.

Definition emma : BookCreate :=
  {| bc_title := "Emma"; bc_author := "Austen"; bc_year := Some 1815 |}.

Definition ulysses : BookCreate :=
  {| bc_title := "Ulysses"; bc_author := "Joyce"; bc_year := None |}.

Definition shelf : table := (create_book emma (create_book dune ∅).2).2.

(** The rows of the table in the order of the scan. *)
Definition rows (db : table) : list (Z * BookDB) := merge_sort id_le (map_to_list db).

End BookApi.

(** ** Properties of the grade analyzer *)

Module GradeAnalyzerFacts.
Import GradeAnalyzer.

Local Open Scope string_scope.
Local Open Scope Z_scope.
Local Arguments String.append : simpl nomatch.

(** *** Names *)

Lemma find_student_None n students :
  find_student n students = None ↔ ∀ s, s ∈ students → lower (name s) ≠ lower n.
Proof.
  induction students as [|s students IH]; simpl.
  - split; [|done]. intros _ s Hs. by apply elem_of_nil in Hs.
  - unfold same_name. destruct (String.eqb_spec (lower (name s)) (lower n)) as [He|Hne].
    + split; [done|]. intros H. exfalso. apply (H s); [by left|done].
    + rewrite fmap_None, IH. split.
      * intros H s' [->|Hs']%elem_of_cons; auto.
      * intros H s' Hs'. apply H. by right.
Qed.

Lemma find_student_Some n students i s :
  find_student n students = Some (i, s) →
  students !! i = Some s ∧ lower (name s) = lower n
  ∧ ∀ j s', (j < i)%nat → students !! j = Some s' → lower (name s') ≠ lower n.
Proof.
  revert i. induction students as [|s0 students IH]; intros i; simpl; [done|].
  unfold same_name. destruct (String.eqb_spec (lower (name s0)) (lower n)) as [He|Hne].
  - intros [= <- <-]. repeat split; [done|]. intros j s' Hj. lia.
  - destruct (find_student n students) as [[i' s1]|]; simpl; [|done].
    intros [= <- <-]. destruct (IH i' eq_refl) as (Hl & Hn & Hfirst).
    repeat split; [done..|]. intros [|j] s' Hj; simpl.
    + by intros [= <-].
    + apply Hfirst. lia.
Qed.

(** C5.  The name is the line read, stripped.  When it is empty, or is the
    name of a student of the list up to the case of letters, the list
    stays as it was and the failure is printed; otherwise one student with
    that name and no grade is appended to the list.  Without a line to
    read the list stays as it was too. *)
Theorem add_new_student_unique (students : list student) (line : string) (stdin : list string) :
  raised (add_new_student students (line :: stdin)) = None
  ∧ stdin_after (add_new_student students (line :: stdin)) = stdin
  ∧ (strip line = "" →
       students_after (add_new_student students (line :: stdin)) = students
       ∧ stdout (add_new_student students (line :: stdin))
         = [Prompt "Enter student name: "; Print "Error: Student name cannot be empty."])
  ∧ (strip line ≠ "" →
     (∃ s, s ∈ students ∧ lower (name s) = lower (strip line)) →
       students_after (add_new_student students (line :: stdin)) = students
       ∧ stdout (add_new_student students (line :: stdin))
         = [Prompt "Enter student name: ";
            Print ("Student '" ++ strip line ++ "' already exists.")])
  ∧ (strip line ≠ "" →
     (∀ s, s ∈ students → lower (name s) ≠ lower (strip line)) →
       students_after (add_new_student students (line :: stdin))
       = (students ++ [{| name := strip line; grades := [] |}])%list
       ∧ stdout (add_new_student students (line :: stdin))
         = [Prompt "Enter student name: ";
            Print ("Student '" ++ strip line ++ "' added successfully.")])
  ∧ students_after (add_new_student students []) = students
  ∧ raised (add_new_student students []) = Some EOFError.
Proof.
  unfold add_new_student. destruct (strip line) as [|c n] eqn:Hn; simpl.
  { split_and!; done. }
  destruct (find_student (String c n) students) as [[i s]|] eqn:Hfind; simpl.
  - split_and!; try done. intros _ Hnone.
    apply find_student_Some in Hfind as (Hs & Hname & _).
    exfalso. apply (Hnone s); [|done]. by eapply list_elem_of_lookup_2.
  - split_and!; try done. intros _ (s & Hs & Hname).
    exfalso. by apply (proj1 (find_student_None _ _) Hfind s).
Qed.


Lemma add_new_student_unique_witness :
  strip " ann " ≠ ""
  ∧ (∃ s, s ∈ class_of_three ∧ lower (name s) = lower (strip " ann "))
  ∧ students_after (add_new_student class_of_three [" ann "; "5"]) = class_of_three
  ∧ stdout (add_new_student class_of_three [" ann "; "5"])
    = [Prompt "Enter student name: "; Print "Student 'ann' already exists."].
Proof.
  assert (Hname : strip " ann " ≠ "") by discriminate.
  assert (Hs : ∃ s, s ∈ class_of_three ∧ lower (name s) = lower (strip " ann ")).
  { exists {| name := "Ann"; grades := [70] |}. split; [by left|reflexivity]. }
  split; [exact Hname|]. split; [exact Hs|].
  exact (proj1 (proj2 (proj2 (proj2 (add_new_student_unique class_of_three " ann " ["5"])))) 
           Hname Hs).
Defined.

(** *** The grade loop *)

Lemma lower_done_nonempty s : lower s = "done" → truthy_str s = true.
Proof. by destruct s. Qed.

Lemma grade_loop_done entry stdin gs :
  is_done entry → grade_loop (entry :: stdin) gs = (gs, stdin, [grade_prompt], None).
Proof.
  unfold is_done. intros Hd. simpl.
  rewrite (lower_done_nonempty _ Hd). simpl. by rewrite Hd.
Qed.

Lemma grade_loop_continue entry :
  ¬ is_done entry →
  ∃ reply,
    replied entry reply
    ∧ ∀ stdin gs,
        grade_loop (entry :: stdin) gs
        = (let '(gs', stdin', written, e) :=
             grade_loop stdin (gs ++ option_list (accepted entry))%list in
           (gs', stdin', grade_prompt :: Print reply :: written, e)).
Proof.
  unfold is_done, replied, accepted. intros Hd. simpl.
  destruct (strip entry) as [|c n] eqn:Hn.
  { simpl. eexists. split; [|intros stdin gs; rewrite app_nil_r; reflexivity]. set_solver. }
  simpl negb. cbv iota.
  destruct (String.eqb_spec (lower (String c n)) "done") as [He|_]; [done|].
  destruct (py_int (String c n)) as [grade|].
  - destruct (decide (0 ≤ grade ≤ 100)) as [Hin|Hout].
    + assert ((grade <? 0) || (grade >? 100) = false) as -> by lia.
      simpl. eexists. split; [|intros stdin gs; reflexivity]. done.
    + assert ((grade <? 0) || (grade >? 100) = true) as -> by lia.
      simpl. eexists. split; [|intros stdin gs; rewrite app_nil_r; reflexivity]. set_solver.
  - simpl. eexists. split; [|intros stdin gs; rewrite app_nil_r; reflexivity]. set_solver.
Qed.

Lemma grade_loop_in_range stdin gs :
  Forall (λ g, 0 ≤ g ≤ 100) gs →
  Forall (λ g, 0 ≤ g ≤ 100) (grade_loop stdin gs).1.1.1.
Proof.
  revert gs. induction stdin as [|entry stdin IH]; intros gs Hgs; [done|].
  destruct (decide (is_done entry)) as [Hd|Hd].
  - by rewrite grade_loop_done.
  - destruct (grade_loop_continue entry Hd) as (reply & _ & ->).
    specialize (IH (gs ++ option_list (accepted entry))%list).
    destruct (grade_loop stdin _) as [[[gs' stdin'] written] e]. simpl in *.
    apply IH. apply Forall_app. split; [done|].
    unfold accepted. destruct (py_int (strip entry)) as [g|]; simpl; [|done].
    destruct (decide (0 ≤ g ≤ 100)); simpl; auto.
Qed.

Lemma grade_loop_stdin stdin gs :
  (length (grade_loop stdin gs).1.1.2 ≤ length stdin)%nat.
Proof.
  revert gs. induction stdin as [|entry stdin IH]; intros gs; [done|].
  destruct (decide (is_done entry)) as [Hd|Hd].
  - rewrite grade_loop_done by done. simpl. lia.
  - destruct (grade_loop_continue entry Hd) as (reply & _ & ->).
    specialize (IH (gs ++ option_list (accepted entry))%list).
    destruct (grade_loop stdin _) as [[[gs' stdin'] written] e]. simpl in *. lia.
Qed.



Lemma grade_loop_entries entries :
  Forall (λ entry, ¬ is_done entry) entries →
  ∃ replies,
    Forall2 replied entries replies
    ∧ ∀ stdin gs,
        grade_loop (entries ++ stdin) gs
        = (let '(gs', stdin', written, e) :=
             grade_loop stdin (gs ++ omap accepted entries)%list in
           (gs', stdin',
            (flat_map (λ reply, [grade_prompt; Print reply]) replies ++ written)%list, e)).
Proof.
  induction 1 as [|entry entries Hd _ (replies & Hreplies & Hloop)].
  - exists []. split; [constructor|]. intros stdin gs. simpl. rewrite app_nil_r.
    by destruct (grade_loop stdin gs) as [[[? ?] ?] ?].
  - destruct (grade_loop_continue entry Hd) as (reply & Hreply & Hstep).
    exists (reply :: replies). split; [by constructor|]. intros stdin gs.
    rewrite <- app_comm_cons, Hstep, Hloop.
    assert (Hgs : (gs ++ omap accepted (entry :: entries)
                   = (gs ++ option_list (accepted entry)) ++ omap accepted entries)%list).
    { rewrite <- app_assoc. f_equal. simpl. by destruct (accepted entry). }
    rewrite Hgs. by destruct (grade_loop stdin _) as [[[? ?] ?] ?].
Qed.

(** *** The whole program *)

Lemma show_report_students `{Float64} students stdin :
  students_after (show_report students stdin) = students
  ∧ stdin_after (show_report students stdin) = stdin.
Proof.
  unfold show_report. destruct students as [|s students]; [done|].
  destruct (report_loop (s :: students) []) as [written averages].
  by destruct (summary averages) as [stats e].
Qed.

Lemma find_top_performer_students `{Float64} students stdin :
  students_after (find_top_performer students stdin) = students
  ∧ stdin_after (find_top_performer students stdin) = stdin
  ∧ raised (find_top_performer students stdin) = None.
Proof.
  unfold find_top_performer.
  destruct (filter _ students) as [|s l]; [done|].
  destruct (py_max_key average (s :: l)) as [e|top]; [done|].
  by destruct (average top).
Qed.

Lemma add_new_student_in_range students stdin :
  grades_in_range students →
  grades_in_range (students_after (add_new_student students stdin)).
Proof.
  intros Hs. unfold add_new_student. destruct stdin as [|line stdin]; [done|].
  destruct (truthy_str (strip line)); simpl; [|done].
  destruct (find_student (strip line) students); simpl; [done|].
  apply Forall_app. split; [done|]. by repeat constructor.
Qed.

Lemma add_grades_for_student_in_range students stdin :
  grades_in_range students →
  grades_in_range (students_after (add_grades_for_student students stdin)).
Proof.
  intros Hs. unfold add_grades_for_student. destruct stdin as [|line stdin]; [done|].
  destruct (truthy_str (strip line)); simpl; [|done].
  destruct (find_student (strip line) students) as [[i s]|] eqn:Hfind; simpl; [|done].
  apply find_student_Some in Hfind as (Hi & _).
  pose proof (grade_loop_in_range stdin (grades s)) as Hloop.
  destruct (grade_loop stdin (grades s)) as [[[gs stdin'] written] e]. simpl in *.
  apply Forall_insert; [done|]. simpl. apply Hloop.
  by apply (Forall_lookup_1 _ _ _ _ Hs Hi).
Qed.

Lemma add_new_student_stdin students stdin :
  (length (stdin_after (add_new_student students stdin)) ≤ length stdin)%nat.
Proof.
  unfold add_new_student. destruct stdin as [|line stdin]; [done|].
  destruct (truthy_str (strip line)); simpl; [|lia].
  destruct (find_student (strip line) students); simpl; lia.
Qed.

Lemma add_grades_for_student_stdin students stdin :
  (length (stdin_after (add_grades_for_student students stdin)) ≤ length stdin)%nat.
Proof.
  unfold add_grades_for_student. destruct stdin as [|line stdin]; [done|].
  destruct (truthy_str (strip line)); simpl; [|lia].
  destruct (find_student (strip line) students) as [[i s]|]; simpl; [|lia].
  pose proof (grade_loop_stdin stdin (grades s)) as Hloop.
  destruct (grade_loop stdin (grades s)) as [[[gs stdin'] written] e]. simpl in *. lia.
Qed.

Lemma menu_call_in_range `{Float64} choice students stdin r :
  menu_call choice students stdin = Some r →
  (grades_in_range students → grades_in_range (students_after r))
  ∧ (length (stdin_after r) ≤ length stdin)%nat.
Proof.
  unfold menu_call. intros Hr.
  repeat match type of Hr with
         | (if ?c then _ else _) = _ => destruct c
         end; simplify_eq.
  - split; [apply add_new_student_in_range|apply add_new_student_stdin].
  - split; [apply add_grades_for_student_in_range|apply add_grades_for_student_stdin].
  - destruct (show_report_students students stdin) as [-> ->]. done.
  - destruct (find_top_performer_students students stdin) as (-> & -> & _). done.
Qed.

Lemma main_loop_step `{Float64} fuel students line stdin :
  main_loop (S fuel) students (line :: stdin)
  = if negb (truthy_str (strip line)) then
      let '(students', written, how) := main_loop fuel students stdin in
      (students',
       (menu ++ [Print "Error: Choice cannot be empty. Please enter a number between 1-5."]
        ++ written)%list, how)
    else
      match menu_call (strip line) students stdin with
      | Some r =>
          let '(students', written, how) :=
            main_loop fuel (students_after r) (stdin_after r) in
          (students',
           (menu ++ (stdout r ++
                     match raised r with
                     | Some e => [Print ("An error occurred: " ++ exception_text e)]
                     | None => []
                     end) ++ written)%list, how)
      | None =>
          if String.eqb (strip line) "5" then
            (students, (menu ++ [Print "Exiting program."])%list, Exited)
          else
            let '(students', written, how) := main_loop fuel students stdin in
            (students',
             (menu ++ [Print "Invalid choice. Please enter a number between 1-5."]
              ++ written)%list, how)
      end.
Proof.
  unfold menu_call. simpl.
  destruct (negb (truthy_str (strip line))); [done|].
  repeat match goal with |- context [String.eqb ?a ?b] => destruct (String.eqb a b) end; done.
Qed.

Lemma main_loop_in_range `{Float64} fuel students stdin :
  grades_in_range students → grades_in_range (main_loop fuel students stdin).1.1.
Proof.
  revert students stdin. induction fuel as [|fuel IH]; intros students stdin Hs; [done|].
  destruct stdin as [|line stdin]; [done|]. rewrite main_loop_step.
  destruct (negb (truthy_str (strip line))).
  { specialize (IH students stdin Hs).
    by destruct (main_loop fuel students stdin) as [[? ?] ?]. }
  destruct (menu_call (strip line) students stdin) as [r|] eqn:Hr.
  - apply menu_call_in_range in Hr as [Hr _].
    specialize (IH (students_after r) (stdin_after r) (Hr Hs)).
    by destruct (main_loop fuel _ _) as [[? ?] ?].
  - destruct (String.eqb (strip line) "5"); [done|].
    specialize (IH students stdin Hs).
    by destruct (main_loop fuel students stdin) as [[? ?] ?].
Qed.

(** The loop of [main] has turns enough: the run is followed to choice 5
    or to an [input(...)] that finds no line. *)
Lemma main_loop_fuel `{Float64} fuel students stdin :
  (length stdin < fuel)%nat → (main_loop fuel students stdin).2 ≠ OutOfFuel.
Proof.
  revert students stdin. induction fuel as [|fuel IH]; intros students stdin Hlen; [lia|].
  destruct stdin as [|line stdin]; [done|]. rewrite main_loop_step. simpl in Hlen.
  destruct (negb (truthy_str (strip line))).
  { specialize (IH students stdin ltac:(lia)).
    by destruct (main_loop fuel students stdin) as [[? ?] ?]. }
  destruct (menu_call (strip line) students stdin) as [r|] eqn:Hr.
  - apply menu_call_in_range in Hr as [_ Hr].
    specialize (IH (students_after r) (stdin_after r) ltac:(lia)).
    by destruct (main_loop fuel _ _) as [[? ?] ?].
  - destruct (String.eqb (strip line) "5"); [done|].
    specialize (IH students stdin ltac:(lia)).
    by destruct (main_loop fuel students stdin) as [[? ?] ?].
Qed.

Lemma main_ends `{Float64} stdin : (main stdin).2 ≠ OutOfFuel.
Proof. apply main_loop_fuel. lia. Qed.

Lemma main_in_range `{Float64} stdin : grades_in_range (main stdin).1.1.
Proof. apply main_loop_in_range. constructor. Qed.


(** *** What the grade loop accepts *)

Lemma add_grades_for_student_found students line stdin i s :
  strip line ≠ "" →
  find_student (strip line) students = Some (i, s) →
  students_after (add_grades_for_student students (line :: stdin))
  = <[i := {| name := name s; grades := (grade_loop stdin (grades s)).1.1.1 |}]> students
  ∧ stdin_after (add_grades_for_student students (line :: stdin))
    = (grade_loop stdin (grades s)).1.1.2.
Proof.
  intros Hname Hfind. unfold add_grades_for_student.
  destruct (strip line) as [|c n] eqn:Hn; [done|]. simpl. rewrite Hfind.
  by destruct (grade_loop stdin (grades s)) as [[[gs stdin'] written] e].
Qed.

(** C6.  Let [entries] be lines none of which is the word done.  The loop
    reads them all: it appends, in order, the grades of the entries that
    read as an integer between 0 and 100, and only those, and prints for
    every other entry one of its error messages.  A line that is the word
    done, in any case of letters, ends the loop there; without such a line
    the loop goes on to the end of the input.  The grades the loop leaves
    are the grades of the student named.  Grades between 0 and 100 stay so,
    and in a run of the whole program every grade of every student is
    between 0 and 100. *)
Theorem grade_loop_accepts (entries : list string) (gs : list Z) :
  Forall (λ entry, ¬ is_done entry) entries →
  (∃ replies,
     Forall2 replied entries replies
     ∧ (∀ d rest,
          is_done d →
          grade_loop (entries ++ d :: rest) gs
          = ((gs ++ omap accepted entries)%list, rest,
             (flat_map (λ reply, [grade_prompt; Print reply]) replies ++ [grade_prompt])%list,
             None))
     ∧ grade_loop entries gs
       = ((gs ++ omap accepted entries)%list, [],
          (flat_map (λ reply, [grade_prompt; Print reply]) replies ++ [grade_prompt])%list,
          Some EOFError))
  ∧ (∀ entry grade,
       accepted entry = Some grade ↔ py_int (strip entry) = Some grade ∧ 0 ≤ grade ≤ 100)
  ∧ (∀ students line stdin i s,
       strip line ≠ "" →
       find_student (strip line) students = Some (i, s) →
       students_after (add_grades_for_student students (line :: stdin))
       = <[i := {| name := name s; grades := (grade_loop stdin (grades s)).1.1.1 |}]>
           students)
  ∧ (Forall (λ g, 0 ≤ g ≤ 100) gs →
     Forall (λ g, 0 ≤ g ≤ 100) (gs ++ omap accepted entries)%list)
  ∧ (∀ (F : Float64) stdin, grades_in_range (main stdin).1.1).
Proof.
  intros Hentries. split; [|split; [|split; [|split]]].
  - destruct (grade_loop_entries entries Hentries) as (replies & Hreplies & Hloop).
    exists replies. split; [done|]. split.
    + intros d rest Hd. by rewrite Hloop, grade_loop_done.
    + rewrite <- (app_nil_r entries) at 1. by rewrite Hloop.
  - intros entry grade. unfold accepted.
    destruct (py_int (strip entry)) as [g|]; [|split; [done|by intros [? _]]].
    destruct (decide (0 ≤ g ≤ 100)) as [Hin|Hout]; split.
    + by intros [= <-].
    + by intros [[= <-] _].
    + done.
    + by intros [[= <-] H].
  - intros students line stdin i s Hname Hfind.
    by apply add_grades_for_student_found.
  - intros Hgs. apply Forall_app. split; [done|].
    apply Forall_forall. intros g (entry & _ & Hg)%list_elem_of_omap.
    unfold accepted in Hg. destruct (py_int (strip entry)) as [g'|]; [|done].
    destruct (decide (0 ≤ g' ≤ 100)); [|done]. by injection Hg as <-.
  - intros F stdin. apply main_in_range.
Qed.

Lemma grade_loop_accepts_witness :
  Forall (λ entry, ¬ is_done entry) ["70"; "abc"; ""; "101"; " +8_5 "; "-1"]
  ∧ ∃ written,
      grade_loop ["70"; "abc"; ""; "101"; " +8_5 "; "-1"; " Done"; "1"] [60]
      = ([60; 70; 85], ["1"], written, None).
Proof.
  assert (H : Forall (λ entry, ¬ is_done entry) ["70"; "abc"; ""; "101"; " +8_5 "; "-1"]).
  { repeat constructor; unfold is_done; vm_compute; discriminate. }
  split; [exact H|].
  destruct (proj1 (grade_loop_accepts ["70"; "abc"; ""; "101"; " +8_5 "; "-1"] [60] H))
    as (replies & _ & Hdone & _).
  eexists. exact (Hdone " Done" ["1"] eq_refl).
Defined.

(** *** Floats *)

Lemma Qltb_lt a b : Qltb a b = true ↔ (a < b)%Q.
Proof.
  unfold Qltb. rewrite Qlt_alt. destruct (a ?= b)%Q; split; congruence.
Qed.

Lemma Qltb_ge a b : Qltb a b = false ↔ (b <= a)%Q.
Proof.
  rewrite <- not_true_iff_false, Qltb_lt. split; [apply Qnot_lt_le|apply Qle_not_lt].
Qed.

Lemma round_half_even_nearest q :
  (Qabs (q - inject_Z (round_half_even q)) <= 1 # 2)%Q.
Proof.
  pose proof (Qfloor_le q) as Hlo. pose proof (Qlt_floor q) as Hhi.
  rewrite inject_Z_plus in Hhi. change (inject_Z 1) with 1%Q in Hhi.
  apply Qabs_Qle_condition. unfold round_half_even.
  destruct (Qcompare_spec (q - inject_Z (Qfloor q)) (1 # 2)) as [He|Hl|Hg].
  - destruct (Z.even (Qfloor q)).
    + split; lra.
    + rewrite inject_Z_plus. change (inject_Z 1) with 1%Q. split; lra.
  - split; lra.
  - rewrite inject_Z_plus. change (inject_Z 1) with 1%Q. split; lra.
Qed.

Lemma tenths_nearest x :
  (Qabs (Qabs x * 10 - inject_Z (tenths x)) <= 1 # 2)%Q.
Proof. apply round_half_even_nearest. Qed.

Lemma truediv_len `{Float64} {A} a (l : list A) :
  l ≠ [] → truediv a (len l) = inr (fl (inject_Z a / inject_Z (len l))).
Proof.
  intros Hl. unfold truediv, len.
  destruct (Z.eqb_spec (Z.of_nat (length l)) 0) as [H0|]; [|done].
  destruct l; [done|]. simpl in H0. lia.
Qed.

Lemma average_with_grades `{Float64} s :
  grades s ≠ [] → average s = inr (fl (mean (grades s))).
Proof. intros Hs. unfold average, mean. by apply truediv_len. Qed.

(** *** Binary64 rounding *)

Lemma two_pow_pos z : (0 < 2 ^ z)%Q.
Proof. by apply Qpower_0_lt. Qed.

Lemma two_pow_Z z : 0 <= z → (inject_Z (2 ^ z) == 2 ^ z)%Q.
Proof. intros Hz. by rewrite Zpower_Qpower. Qed.

Lemma binade_spec q : (0 < q)%Q → (2 ^ binade q <= q ∧ q < 2 ^ (binade q + 1))%Q.
Proof.
  intros Hq. unfold binade.
  set (n := Qnum q). set (d := Z.pos (Qden q)).
  assert (Hn : 0 < n) by (unfold n; destruct q as [[|p|p] d']; done).
  assert (Hd : 0 < d) by done.
  pose proof (Z.log2_spec n Hn) as [Hn1 Hn2].
  pose proof (Z.log2_spec d Hd) as [Hd1 Hd2].
  pose proof (Z.log2_nonneg n) as Hln. pose proof (Z.log2_nonneg d) as Hld.
  set (ln := Z.log2 n) in *. set (ld := Z.log2 d) in *.
  assert (Hqd : (q * inject_Z d == inject_Z n)%Q).
  { unfold Qeq, d, n. destruct q as [a b]. simpl. lia. }
  assert (HD : (0 < inject_Z d)%Q) by (unfold Qlt; simpl; lia).
  rewrite Zle_Qle in Hn1, Hd1. rewrite Zlt_Qlt in Hn2, Hd2.
  rewrite <- !Z.add_1_r in Hn2, Hd2.
  rewrite two_pow_Z in Hn1, Hn2, Hd1, Hd2 by lia.
  assert (Hhi : (q < 2 ^ (ln - ld + 1))%Q).
  { assert (He : (2 ^ (ln - ld + 1) * 2 ^ ld == 2 ^ (ln + 1))%Q).
    { rewrite <- Qpower_plus by done. by replace (ln - ld + 1 + ld) with (ln + 1) by lia. }
    pose proof (two_pow_pos (ln - ld + 1)). nra. }
  assert (Hlo : (2 ^ (ln - ld - 1) < q)%Q).
  { assert (He : (2 ^ (ln - ld - 1) * 2 ^ (ld + 1) == 2 ^ ln)%Q).
    { rewrite <- Qpower_plus by done. by replace (ln - ld - 1 + (ld + 1)) with ln by lia. }
    pose proof (two_pow_pos (ln - ld - 1)). nra. }
  destruct (Qle_bool (2 ^ (ln - ld)) q) eqn:Hle.
  - apply Qle_bool_iff in Hle. done.
  - split; [by apply Qlt_le_weak|].
    replace (ln - ld - 1 + 1) with (ln - ld) by lia.
    apply Qnot_le_lt. intros Hc. apply Qle_bool_iff in Hc. congruence.
Qed.

Lemma binade_value a b : (0 < a)%Q → (a == b)%Q → binade a = binade b.
Proof.
  intros Ha Hab. assert (Hb : (0 < b)%Q) by lra.
  destruct (binade_spec a Ha) as [Ha1 Ha2]. destruct (binade_spec b Hb) as [Hb1 Hb2].
  assert (H1 : (binade a < binade b + 1)%Z).
  { apply (Qpower_lt_compat_l_inv 2); [lra|done]. }
  assert (H2 : (binade b < binade a + 1)%Z).
  { apply (Qpower_lt_compat_l_inv 2); [lra|done]. }
  lia.
Qed.

Lemma round_half_even_value a b : (a == b)%Q → round_half_even a = round_half_even b.
Proof.
  intros Hab. unfold round_half_even.
  rewrite (Qfloor_comp a b Hab).
  assert (He : (a - inject_Z (Qfloor b) == b - inject_Z (Qfloor b))%Q) by lra.
  by rewrite (Qcompare_comp _ _ He _ _ (Qeq_refl (1 # 2))).
Qed.

Lemma round_pos_value a b : (0 < a)%Q → (a == b)%Q → (round_pos a == round_pos b)%Q.
Proof.
  intros Ha Hab. unfold round_pos. rewrite <- (binade_value a b Ha Hab).
  assert (He : (a / 2 ^ (binade a - 52) == b / 2 ^ (binade a - 52))%Q)
    by (apply Qmult_comp; [done|reflexivity]).
  by rewrite (round_half_even_value _ _ He).
Qed.

Lemma round_pos_near q :
  (0 < q)%Q → (Qabs (round_pos q - q) <= q * unit_roundoff)%Q.
Proof.
  intros Hq. destruct (binade_spec q Hq) as [Hlo _]. unfold round_pos.
  set (e := binade q - 52) in *.
  pose proof (two_pow_pos e) as HP.
  assert (He : (2 ^ binade q == 4503599627370496 * 2 ^ e)%Q).
  { replace (binade q) with (52 + e) by (unfold e; lia).
    rewrite Qpower_plus by done. apply Qmult_comp; [|reflexivity]. by vm_compute. }
  pose proof (round_half_even_nearest (q / 2 ^ e)) as Hr.
  apply Qabs_Qle_condition in Hr as [Hr1 Hr2].
  assert (Hm : (q / 2 ^ e * 2 ^ e == q)%Q) by (field; lra).
  set (m := (q / 2 ^ e)%Q) in *. set (r := inject_Z (round_half_even m)) in *.
  set (P := (2 ^ e)%Q) in *. rewrite He in Hlo.
  apply Qabs_Qle_condition. unfold unit_roundoff. split; nra.
Qed.

Lemma round_double_value a b : (a == b)%Q → (round_double a == round_double b)%Q.
Proof.
  intros Hab. unfold round_double.
  rewrite <- (Qcompare_comp _ _ Hab _ _ (Qeq_refl 0)).
  destruct (Qcompare_spec a 0) as [H0|Hl|Hg].
  - reflexivity.
  - apply Qopp_comp, round_pos_value; [lra|lra].
  - by apply round_pos_value.
Qed.

Lemma round_double_near q :
  (Qabs (round_double q - q) <= Qabs q * unit_roundoff)%Q.
Proof.
  unfold round_double. destruct (Qcompare_spec q 0) as [H0|Hl|Hg].
  - rewrite H0. by vm_compute.
  - assert (Hq : (0 < - q)%Q) by lra. pose proof (round_pos_near (- q) Hq) as Hr.
    apply Qabs_Qle_condition in Hr as [Hr1 Hr2].
    rewrite (Qabs_neg q) by lra. apply Qabs_Qle_condition. split; lra.
  - pose proof (round_pos_near q Hg) as Hr. by rewrite (Qabs_pos q) by lra.
Qed.

Lemma binary64_division : division_rounds binary64.
Proof. split; [apply round_double_value|apply round_double_near]. Qed.

Lemma exact_division : division_rounds exact.
Proof.
  split; [done|]. intros q. change (fl q) with q.
  pose proof (Qabs_nonneg q). apply Qabs_Qle_condition. unfold unit_roundoff. split; nra.
Qed.

(** The doubles nearest to 1/10 and to 85.35: the first is
    3602879701896397 / 2^55, the second is below 85.35. *)
Example round_double_tenth :
  Qred (round_double (1 # 10)) = 3602879701896397 # 36028797018963968.
Proof. vm_compute. reflexivity. Qed.

Example round_double_below :
  Qcompare (round_double (1707 # 20)) (1707 # 20) = Lt
  ∧ tenths (round_double (1707 # 20)) = 853.
Proof. vm_compute. done. Qed.

(** *** Rounded sums *)

Lemma pow_succ (q : Q) (n : nat) : (q ^ Z.of_nat (S n) == q * q ^ Z.of_nat n)%Q.
Proof.
  rewrite Nat2Z.inj_succ, <- Z.add_1_l.
  destruct n as [|n].
  - simpl. ring.
  - rewrite Qpower_plus' by lia. by rewrite Qpower_1_r.
Qed.

Lemma growth_nonneg (n : nat) : (0 <= (1 + unit_roundoff) ^ Z.of_nat n - 1)%Q.
Proof.
  assert (1 <= (1 + unit_roundoff) ^ Z.of_nat n)%Q; [|lra].
  apply Qpower_1_le; [by vm_compute|lia].
Qed.

Lemma Qsum_abs_nonneg l : (0 <= Qsum_abs l)%Q.
Proof.
  induction l as [|x l IH]; simpl; [lra|]. pose proof (Qabs_nonneg x). lra.
Qed.

Lemma Qsum_abs_bound l : (Qabs (Qsum l) <= Qsum_abs l)%Q.
Proof.
  induction l as [|x l IH]; simpl; [by vm_compute|].
  eapply Qle_trans; [apply Qabs_triangle|]. lra.
Qed.

Lemma exact_sum : sum_rounds exact.
Proof.
  intros l. change (float_sum l) with (Qsum l).
  pose proof (growth_nonneg (length l)). pose proof (Qsum_abs_nonneg l).
  apply Qabs_Qle_condition. split; nra.
Qed.

(** Adding from left to right, every addition rounded. *)
Lemma fold_left_rounds `{Float64} (l : list Q) (acc s A : Q) (k : nat) :
  division_rounds _ →
  (Qabs (acc - s) <= ((1 + unit_roundoff) ^ Z.of_nat k - 1) * A)%Q →
  (Qabs s <= A)%Q →
  (Qabs (fold_left (λ acc y, fl (acc + y)%Q) l acc - (s + Qsum l))
   <= ((1 + unit_roundoff) ^ Z.of_nat (k + length l) - 1) * (A + Qsum_abs l))%Q.
Proof.
  intros [_ Hnear]. revert acc s A k. induction l as [|y l IH]; intros acc s A k Hacc Hs.
  - cbn [fold_left length Qsum Qsum_abs foldr]. rewrite Nat.add_0_r.
    apply Qabs_Qle_condition in Hacc as [H1 H2]. apply Qabs_Qle_condition. split; lra.
  - cbn [fold_left length Qsum Qsum_abs foldr].
    replace (k + S (length l))%nat with (S k + length l)%nat by lia.
    fold (Qsum l). fold (Qsum_abs l).
    specialize (IH (fl (acc + y)) (s + y)%Q (A + Qabs y)%Q (S k)).
    assert (Hgoal : ∀ a b c d e : Q, (a == b → c == d → Qabs (e - a) <= c → Qabs (e - b) <= d)%Q).
    { intros a b c d e Hab Hcd Ha. apply Qabs_Qle_condition in Ha as [H1 H2].
      apply Qabs_Qle_condition. split; lra. }
    eapply Hgoal; [| |apply IH].
    + ring.
    + ring.
    + pose proof (Hnear (acc + y)%Q) as Hn.
      pose proof (growth_nonneg k) as HE. rewrite pow_succ.
      set (E := ((1 + unit_roundoff) ^ Z.of_nat k)%Q) in *.
      pose proof (Qabs_triangle acc y) as Ht.
      pose proof (Qabs_nonneg y) as Hy.
      assert (Hacc' : (Qabs acc <= Qabs s + (E - 1) * A)%Q).
      { assert (Heq : (acc == s + (acc - s))%Q) by ring.
        rewrite (Qabs_wd _ _ Heq). eapply Qle_trans; [apply Qabs_triangle|]. lra. }
      assert (HA : (0 <= A)%Q) by (pose proof (Qabs_nonneg s); lra).
      apply Qabs_Qle_condition in Hn as [Hn1 Hn2].
      apply Qabs_Qle_condition in Hacc as [Ha1 Ha2].
      set (Y := Qabs y) in *. set (N := Qabs (acc + y)) in *.
      set (S' := Qabs s) in *. set (AC := Qabs acc) in *.
      unfold unit_roundoff in *. apply Qabs_Qle_condition. split; nra.
    + eapply Qle_trans; [apply Qabs_triangle|]. lra.
Qed.

Lemma binary64_sum : sum_rounds binary64.
Proof.
  intros [|x l].
  - by vm_compute.
  - cbn [float_sum binary64 length Qsum Qsum_abs foldr].
    fold (Qsum l). fold (Qsum_abs l).
    change (S (length l)) with (1 + length l)%nat.
    apply (fold_left_rounds (H := binary64) l x x (Qabs x) 1 binary64_division).
    + pose proof (Qabs_nonneg x).
      apply Qabs_Qle_condition. unfold unit_roundoff. simpl Z.of_nat.
      rewrite Qpower_1_r. split; nra.
    + apply Qle_refl.
Qed.

(** *** Means *)

Lemma fold_left_add l a : fold_left Z.add l a = a + foldr Z.add 0 l.
Proof.
  revert a. induction l as [|x l IH]; intros a; simpl; [lia|]. rewrite IH. lia.
Qed.

Lemma mean_arithmetic gs : mean gs = arithmetic_mean gs.
Proof. unfold mean, arithmetic_mean, sum, total, len. by rewrite fold_left_add. Qed.

Lemma total_range gs :
  Forall (λ g, 0 ≤ g ≤ 100) gs → 0 ≤ total gs ≤ 100 * Z.of_nat (length gs).
Proof.
  induction 1 as [|g gs Hg _ IH]; [done|].
  cbn [total foldr length]. fold (total gs). lia.
Qed.

Lemma arithmetic_mean_times gs :
  gs ≠ [] →
  (0 < inject_Z (Z.of_nat (length gs))
   ∧ arithmetic_mean gs * inject_Z (Z.of_nat (length gs)) == inject_Z (total gs))%Q.
Proof.
  intros Hgs.
  assert (HN : (0 < inject_Z (Z.of_nat (length gs)))%Q).
  { change 0%Q with (inject_Z 0). rewrite <- Zlt_Qlt. destruct gs; [done|]. simpl. lia. }
  split; [done|]. unfold arithmetic_mean. field. lra.
Qed.

Lemma arithmetic_mean_range gs :
  gs ≠ [] → Forall (λ g, 0 ≤ g ≤ 100) gs →
  (0 <= arithmetic_mean gs ∧ arithmetic_mean gs <= 100)%Q.
Proof.
  intros Hgs Hr. destruct (arithmetic_mean_times gs Hgs) as [HN Hm].
  destruct (total_range gs Hr) as [H0 H100].
  rewrite Zle_Qle in H0, H100. rewrite inject_Z_mult in H100.
  change (inject_Z 0) with 0%Q in H0. change (inject_Z 100) with 100%Q in H100.
  set (m := arithmetic_mean gs) in *. set (N := inject_Z (Z.of_nat (length gs))) in *.
  split; nra.
Qed.

(** Two different means of fewer than 2^22 grades each, between 0 and
    100, are more than 2^-44 apart: their floats are in the same order. *)
Lemma means_apart `{Float64} gs gs' :
  division_rounds _ →
  gs ≠ [] → gs' ≠ [] →
  Forall (λ g, 0 ≤ g ≤ 100) gs → Forall (λ g, 0 ≤ g ≤ 100) gs' →
  Z.of_nat (length gs) < 4194304 → Z.of_nat (length gs') < 4194304 →
  (arithmetic_mean gs < arithmetic_mean gs')%Q →
  (fl (arithmetic_mean gs) < fl (arithmetic_mean gs'))%Q.
Proof.
  intros [_ Hnear] Hgs Hgs' Hr Hr' Hl Hl' Hlt.
  destruct (arithmetic_mean_times gs Hgs) as [HN Hm].
  destruct (arithmetic_mean_times gs' Hgs') as [HN' Hm'].
  destruct (arithmetic_mean_range gs Hgs Hr) as [H0 H100].
  destruct (arithmetic_mean_range gs' Hgs' Hr') as [H0' H100'].
  pose proof (Hnear (arithmetic_mean gs)) as Hf.
  pose proof (Hnear (arithmetic_mean gs')) as Hf'.
  pose proof (Qabs_pos _ H0) as Ha. pose proof (Qabs_pos _ H0') as Ha'.
  apply Qabs_Qle_condition in Hf as [Hf1 Hf2].
  apply Qabs_Qle_condition in Hf' as [Hf1' Hf2'].
  rewrite Zlt_Qlt in Hl, Hl'. change (inject_Z 4194304) with 4194304%Q in Hl, Hl'.
  set (m := arithmetic_mean gs) in *. set (m' := arithmetic_mean gs') in *.
  assert (Hz : total gs * Z.of_nat (length gs') + 1 ≤ total gs' * Z.of_nat (length gs)).
  { assert (Hq : (inject_Z (total gs * Z.of_nat (length gs'))
                  < inject_Z (total gs' * Z.of_nat (length gs)))%Q).
    { rewrite !inject_Z_mult.
      set (N := inject_Z (Z.of_nat (length gs))) in *.
      set (N' := inject_Z (Z.of_nat (length gs'))) in *.
      assert (0 < (m' - m) * (N * N'))%Q; [|nra].
      apply Qmult_lt_0_compat; [lra|]. by apply Qmult_lt_0_compat. }
    rewrite <- Zlt_Qlt in Hq. lia. }
  rewrite Zle_Qle, inject_Z_plus, !inject_Z_mult in Hz.
  change (inject_Z 1) with 1%Q in Hz.
  set (N := inject_Z (Z.of_nat (length gs))) in *.
  set (N' := inject_Z (Z.of_nat (length gs'))) in *.
  assert (Hd : (1 <= (m' - m) * (N * N'))%Q) by nra.
  assert (HP : (N * N' < 17592186044416)%Q) by nra.
  assert (Hgap : (1 < (m' - m) * 17592186044416)%Q).
  { assert (0 < (m' - m) * (17592186044416 - N * N'))%Q; [|nra].
    apply Qmult_lt_0_compat; lra. }
  unfold unit_roundoff in *. lra.
Qed.

Lemma round_half_even_nonneg q : (0 <= q)%Q → 0 ≤ round_half_even q.
Proof.
  intros Hq. assert (H0 : 0 ≤ Qfloor q).
  { change 0 with (Qfloor 0). by apply Qfloor_resp_le. }
  unfold round_half_even.
  destruct (Qcompare _ _); [destruct (Z.even _)|..]; lia.
Qed.

Lemma tenths_nonneg x : 0 ≤ tenths x.
Proof.
  apply round_half_even_nonneg. pose proof (Qabs_nonneg x). lra.
Qed.

(** What the format shows of a rounded quotient, in terms of the
    quotient. *)
Lemma fmt1_rounded `{Float64} (q : Q) :
  division_rounds _ →
  fmt1 (fl q)
  = ((if Qlt_le_dec q 0 then "-" else "")
     ++ NilZero.string_of_int (Z.to_int (tenths (fl q) / 10)) ++ "."
     ++ NilZero.string_of_int (Z.to_int (tenths (fl q) mod 10)))%string
  ∧ 0 ≤ tenths (fl q)
  ∧ (Qabs (Qabs (fl q) * 10 - inject_Z (tenths (fl q))) <= 1 # 2)%Q
  ∧ (Qabs (inject_Z (tenths (fl q)) / 10 - Qabs q) <= (1 # 20) + Qabs q * unit_roundoff)%Q.
Proof.
  intros [_ Hnear]. pose proof (Hnear q) as Hn.
  pose proof (tenths_nearest (fl q)) as Ht.
  split; [|split; [apply tenths_nonneg|split; [exact Ht|]]];
    apply Qabs_Qle_condition in Ht as [Ht1 Ht2].
  - unfold fmt1, str_of_int. f_equal.
    destruct (Qlt_le_dec q 0) as [Hq|Hq].
    + pose proof (Qabs_neg q (Qlt_le_weak _ _ Hq)) as Ha.
      apply Qabs_Qle_condition in Hn as [Hn1 Hn2].
      assert (Hf : (fl q < 0)%Q) by (unfold unit_roundoff in *; lra).
      apply Qltb_lt in Hf. by rewrite Hf.
    + pose proof (Qabs_pos q Hq) as Ha.
      apply Qabs_Qle_condition in Hn as [Hn1 Hn2].
      assert (Hf : (0 <= fl q)%Q) by (unfold unit_roundoff in *; lra).
      apply Qltb_ge in Hf. by rewrite Hf.
  - assert (Hd : (inject_Z (tenths (fl q)) / 10 * 10 == inject_Z (tenths (fl q)))%Q)
      by (field; done).
    set (shown := (inject_Z (tenths (fl q)) / 10)%Q) in *.
    destruct (Qlt_le_dec q 0) as [Hq|Hq].
    + pose proof (Qabs_neg q (Qlt_le_weak _ _ Hq)) as Ha.
      apply Qabs_Qle_condition in Hn as [Hn1 Hn2].
      assert (Hf : (fl q <= 0)%Q) by (unfold unit_roundoff in *; lra).
      pose proof (Qabs_neg _ Hf) as Haf.
      apply Qabs_Qle_condition. unfold unit_roundoff in *. split; lra.
    + pose proof (Qabs_pos q Hq) as Ha.
      apply Qabs_Qle_condition in Hn as [Hn1 Hn2].
      assert (Hf : (0 <= fl q)%Q) by (unfold unit_roundoff in *; lra).
      pose proof (Qabs_pos _ Hf) as Haf.
      apply Qabs_Qle_condition. unfold unit_roundoff in *. split; lra.
Qed.

Lemma Qsum_rounded `{Float64} (ms : list Q) :
  division_rounds _ →
  (Qabs (Qsum (fl <$> ms) - Qsum ms) <= unit_roundoff * Qsum_abs ms
   ∧ Qsum_abs (fl <$> ms) <= (1 + unit_roundoff) * Qsum_abs ms)%Q.
Proof.
  intros [_ Hnear]. induction ms as [|x ms [IH1 IH2]].
  - split; by vm_compute.
  - rewrite fmap_cons. cbn [Qsum Qsum_abs foldr].
    fold (Qsum ms) (Qsum (fl <$> ms)) (Qsum_abs ms) (Qsum_abs (fl <$> ms)).
    pose proof (Hnear x) as Hx.
    assert (Hfx : (Qabs (fl x) <= Qabs x + Qabs x * unit_roundoff)%Q).
    { assert (Heq : (fl x == x + (fl x - x))%Q) by ring.
      rewrite (Qabs_wd _ _ Heq). eapply Qle_trans; [apply Qabs_triangle|]. lra. }
    apply Qabs_Qle_condition in Hx as [Hx1 Hx2].
    apply Qabs_Qle_condition in IH1 as [IH1 IH1'].
    split; [apply Qabs_Qle_condition; split; lra|lra].
Qed.

(** The float mean of the float means is close to the mean of the means. *)
Lemma overall_near `{Float64} (ms : list Q) :
  division_rounds _ → sum_rounds _ → ms ≠ [] →
  (Qabs (fl (float_sum (fl <$> ms) / inject_Z (Z.of_nat (length ms)))
         - Qsum ms / inject_Z (Z.of_nat (length ms)))
   <= ((1 + unit_roundoff) ^ Z.of_nat (length ms + 2) - 1)
      * (Qsum_abs ms / inject_Z (Z.of_nat (length ms))))%Q.
Proof.
  intros Hdiv Hsum Hms.
  destruct (Qsum_rounded ms Hdiv) as [Ha Hb]. destruct Hdiv as [_ Hnear].
  pose proof (Hsum (fl <$> ms)) as Hs. rewrite length_fmap in Hs.
  pose proof (Hnear (float_sum (fl <$> ms) / inject_Z (Z.of_nat (length ms)))%Q) as Ho.
  pose proof (Qsum_abs_bound ms) as HS. pose proof (Qsum_abs_nonneg ms) as HB.
  pose proof (growth_nonneg (length ms)) as HP.
  assert (HN : (0 < inject_Z (Z.of_nat (length ms)))%Q).
  { change 0%Q with (inject_Z 0). rewrite <- Zlt_Qlt. destruct ms; [done|]. simpl. lia. }
  replace (length ms + 2)%nat with (S (S (length ms))) by lia. rewrite !pow_succ.
  unfold Qdiv in *.
  assert (HiN : (0 < / inject_Z (Z.of_nat (length ms)))%Q) by by apply Qinv_lt_0_compat.
  rewrite Qabs_Qmult, (Qabs_pos (/ _)) in Ho by by apply Qlt_le_weak.
  set (iN := (/ inject_Z (Z.of_nat (length ms)))%Q) in *.
  set (P := ((1 + unit_roundoff) ^ Z.of_nat (length ms))%Q) in *.
  set (Sf := float_sum (fl <$> ms)) in *. set (Sa := Qsum (fl <$> ms)) in *.
  set (S := Qsum ms) in *. set (B := Qsum_abs ms) in *. set (Ba := Qsum_abs (fl <$> ms)) in *.
  set (o := fl (Sf * iN)) in *.
  apply Qabs_Qle_condition in Ha as [Ha1 Ha2].
  apply Qabs_Qle_condition in Hs as [Hs1 Hs2].
  apply Qabs_Qle_condition in HS as [HS1 HS2].
  assert (H1 : ((P - 1) * Ba <= (P - 1) * ((1 + unit_roundoff) * B))%Q).
  { assert (0 <= (P - 1) * ((1 + unit_roundoff) * B - Ba))%Q; [|lra].
    apply Qmult_le_0_compat; lra. }
  assert (H2 : (- (((1 + unit_roundoff) * P - 1) * B) <= Sf - S
                ∧ Sf - S <= ((1 + unit_roundoff) * P - 1) * B)%Q)
    by (split; lra).
  destruct H2 as [H2 H2'].
  assert (H3 : (Qabs Sf <= (1 + unit_roundoff) * P * B)%Q).
  { apply Qabs_Qle_condition. split; lra. }
  assert (H4 : (Qabs Sf * iN * unit_roundoff
                <= (1 + unit_roundoff) * P * B * iN * unit_roundoff)%Q).
  { apply Qmult_le_compat_r; [|by vm_compute].
    apply Qmult_le_compat_r; [done|by apply Qlt_le_weak]. }
  apply Qabs_Qle_condition in Ho as [Ho1 Ho2].
  assert (H5 : (- (((1 + unit_roundoff) * P - 1) * B * iN) <= (Sf - S) * iN
                ∧ (Sf - S) * iN <= ((1 + unit_roundoff) * P - 1) * B * iN)%Q).
  { split.
    - assert (0 <= ((Sf - S) + ((1 + unit_roundoff) * P - 1) * B) * iN)%Q; [|lra].
      apply Qmult_le_0_compat; lra.
    - assert (0 <= (((1 + unit_roundoff) * P - 1) * B - (Sf - S)) * iN)%Q; [|lra].
      apply Qmult_le_0_compat; lra. }
  destruct H5 as [H5 H5'].
  apply Qabs_Qle_condition. split; lra.
Qed.

(** *** [max] and [min] *)

Lemma max_from_first {A} (key : A → exception + Q) (k : A → Q) best l :
  (∀ x, x ∈ l → key x = inr (k x)) →
  ∃ before top after,
    best :: l = (before ++ top :: after)%list
    ∧ max_from key best (k best) l = inr top
    ∧ Forall (λ x, (k x < k top)%Q) before
    ∧ Forall (λ x, (k x <= k top)%Q) after.
Proof.
  revert best. induction l as [|x l IH]; intros best Hkey.
  - exists [], best, []. by repeat split.
  - simpl. rewrite (Hkey x) by by left.
    assert (Hl : ∀ y, y ∈ l → key y = inr (k y)) by (intros y Hy; apply Hkey; by right).
    destruct (Qltb (k best) (k x)) eqn:Hlt.
    + apply Qltb_lt in Hlt.
      destruct (IH x Hl) as (before & top & after & Heq & Hmax & Hb & Ha).
      exists (best :: before), top, after. rewrite Heq.
      split; [done|]. split; [done|]. split; [|done].
      constructor; [|done].
      destruct before as [|y before]; simpl in Heq; injection Heq as -> _; [done|].
      apply Forall_cons in Hb as [Hb _]. by eapply Qlt_trans.
    + apply Qltb_ge in Hlt.
      destruct (IH best Hl) as (before & top & after & Heq & Hmax & Hb & Ha).
      destruct before as [|y before]; simpl in Heq; injection Heq as <- Heq; subst.
      * exists [], best, (x :: after).
        split; [done|]. split; [done|]. split; [constructor|]. by constructor.
      * exists (best :: x :: before), top, after.
        split; [done|]. split; [done|]. split; [|done].
        apply Forall_cons in Hb as [Hy Hb]. repeat constructor; [done| |done].
        by eapply Qle_lt_trans.
Qed.

Lemma py_max_key_first {A} (key : A → exception + Q) (k : A → Q) x l :
  (∀ y, y ∈ x :: l → key y = inr (k y)) →
  ∃ before top after,
    x :: l = (before ++ top :: after)%list
    ∧ py_max_key key (x :: l) = inr top
    ∧ Forall (λ y, (k y < k top)%Q) before
    ∧ Forall (λ y, (k y <= k top)%Q) after.
Proof.
  intros Hkey. simpl. rewrite (Hkey x) by by left.
  apply max_from_first. intros y Hy. apply Hkey. by right.
Qed.

Lemma fold_max l m :
  (fold_left (λ m y, if Qltb m y then y else m) l m ∈ m :: l)
  ∧ Forall (λ a, (a <= fold_left (λ m y, if Qltb m y then y else m) l m)%Q) (m :: l).
Proof.
  revert m. induction l as [|y l IH]; intros m; simpl.
  - split; [by left|]. repeat constructor. apply Qle_refl.
  - destruct (IH (if Qltb m y then y else m)) as [Hin Hall].
    apply Forall_cons in Hall as [Hm Hall]. split.
    + destruct (Qltb m y); [by right|].
      apply elem_of_cons in Hin as [->|Hin]; [by left|by do 2 right].
    + destruct (Qltb m y) eqn:Hlt.
      * apply Qltb_lt in Hlt. repeat constructor; [|done..].
        eapply Qle_trans; [apply Qlt_le_weak, Hlt|done].
      * apply Qltb_ge in Hlt. repeat constructor; [done| |done].
        by eapply Qle_trans.
Qed.

Lemma fold_min l m :
  (fold_left (λ m y, if Qltb y m then y else m) l m ∈ m :: l)
  ∧ Forall (λ a, (fold_left (λ m y, if Qltb y m then y else m) l m <= a)%Q) (m :: l).
Proof.
  revert m. induction l as [|y l IH]; intros m; simpl.
  - split; [by left|]. repeat constructor. apply Qle_refl.
  - destruct (IH (if Qltb y m then y else m)) as [Hin Hall].
    apply Forall_cons in Hall as [Hm Hall]. split.
    + destruct (Qltb y m); [by right|].
      apply elem_of_cons in Hin as [->|Hin]; [by left|by do 2 right].
    + destruct (Qltb y m) eqn:Hlt.
      * apply Qltb_lt in Hlt. repeat constructor; [|done..].
        eapply Qle_trans; [done|apply Qlt_le_weak, Hlt].
      * apply Qltb_ge in Hlt. repeat constructor; [done| |done].
        by eapply Qle_trans.
Qed.


(** *** The top performer *)

(** In terms of the program's own quotient: the student named is the
    first of those with a grade whose rounded quotient is the highest. *)
Lemma find_top_performer_floats `{Float64}
    (students : list student) (stdin : list string) :
  students_after (find_top_performer students stdin) = students
  ∧ stdin_after (find_top_performer students stdin) = stdin
  ∧ raised (find_top_performer students stdin) = None
  ∧ (filter (λ s, grades s ≠ []) students = [] →
       stdout (find_top_performer students stdin)
       = [Print "No students with grades available."])
  ∧ (filter (λ s, grades s ≠ []) students ≠ [] →
       ∃ before top after,
         filter (λ s, grades s ≠ []) students = (before ++ top :: after)%list
         ∧ Forall (λ s, (fl (mean (grades s)) < fl (mean (grades top)))%Q) before
         ∧ Forall (λ s, (fl (mean (grades s)) <= fl (mean (grades top)))%Q) after
         ∧ stdout (find_top_performer students stdin)
           = [Print ("The student with the highest average is " ++ name top
                     ++ " with a grade of " ++ fmt1 (fl (mean (grades top))) ++ ".")])
  ∧ (∀ x, (Qabs (Qabs x * 10 - inject_Z (tenths x)) <= 1 # 2)%Q).
Proof.
  destruct (find_top_performer_students students stdin) as (Hs & Hi & Hr).
  split; [done|]. split; [done|]. split; [done|].
  split; [|split; [|apply tenths_nearest]].
  - intros Hnone. unfold find_top_performer. by rewrite Hnone.
  - intros Hsome. unfold find_top_performer.
    assert (Hkey : ∀ s, s ∈ filter (λ s, grades s ≠ []) students →
                        average s = inr (fl (mean (grades s)))).
    { intros s [Hg _]%list_elem_of_filter. by apply average_with_grades. }
    destruct (filter (λ s, grades s ≠ []) students) as [|x l] eqn:Hf; [done|].
    destruct (py_max_key_first average (λ s, fl (mean (grades s))) x l Hkey)
      as (before & top & after & Heq & Hmax & Hb & Ha).
    exists before, top, after. rewrite Hmax, Hkey; [done|].
    rewrite Heq. apply elem_of_app. right. by left.
Qed.

(** C3.  In float arithmetic whose division rounds to within the unit
    roundoff, [find_top_performer] leaves the list and the console input
    as they are and raises nothing.  With no student who has a grade it
    prints that there is none.  Otherwise the student it names is the
    first, among the students who have a grade, whose float mean (the
    rounded arithmetic mean) is the highest: the float means before are
    lower, the float means after are not higher.  When every grade is
    between 0 and 100 and every student has fewer than 2^22 = 4194304
    grades, the same holds of the arithmetic means themselves.  The mean
    is printed in the format of one decimal: the sign, then the numeral of
    the tenth nearest to the float mean, which is within
    1/20 + |mean| * 2^-53 of the arithmetic mean. *)
Theorem find_top_performer_highest_float `{Float64}
    (students : list student) (stdin : list string) :
  division_rounds _ →
  students_after (find_top_performer students stdin) = students
  ∧ stdin_after (find_top_performer students stdin) = stdin
  ∧ raised (find_top_performer students stdin) = None
  ∧ (filter (λ s, grades s ≠ []) students = [] →
       stdout (find_top_performer students stdin)
       = [Print "No students with grades available."])
  ∧ (filter (λ s, grades s ≠ []) students ≠ [] →
       ∃ before top after,
         filter (λ s, grades s ≠ []) students = (before ++ top :: after)%list
         ∧ Forall (λ s, (fl (arithmetic_mean (grades s))
                         < fl (arithmetic_mean (grades top)))%Q) before
         ∧ Forall (λ s, (fl (arithmetic_mean (grades s))
                         <= fl (arithmetic_mean (grades top)))%Q) after
         ∧ (grades_in_range students →
            Forall (λ s, Z.of_nat (length (grades s)) < 4194304) students →
              Forall (λ s, (arithmetic_mean (grades s)
                            < arithmetic_mean (grades top))%Q) before
              ∧ Forall (λ s, (arithmetic_mean (grades s)
                              <= arithmetic_mean (grades top))%Q) after)
         ∧ stdout (find_top_performer students stdin)
           = [Print ("The student with the highest average is " ++ name top
                     ++ " with a grade of "
                     ++ fmt1 (fl (arithmetic_mean (grades top))) ++ ".")])
  ∧ (∀ q,
       fmt1 (fl q)
       = ((if Qlt_le_dec q 0 then "-" else "")
          ++ NilZero.string_of_int (Z.to_int (tenths (fl q) / 10)) ++ "."
          ++ NilZero.string_of_int (Z.to_int (tenths (fl q) mod 10)))%string
       ∧ 0 ≤ tenths (fl q)
       ∧ (Qabs (Qabs (fl q) * 10 - inject_Z (tenths (fl q))) <= 1 # 2)%Q
       ∧ (Qabs (inject_Z (tenths (fl q)) / 10 - Qabs q)
          <= (1 # 20) + Qabs q * unit_roundoff)%Q).
Proof.
  intros Hdiv.
  destruct (find_top_performer_floats students stdin)
    as (Hs & Hi & Hr & Hnone & Hsome & _).
  split; [done|]. split; [done|]. split; [done|]. split; [done|].
  split; [|intros q; by apply fmt1_rounded].
  intros Hne. destruct (Hsome Hne) as (before & top & after & Heq & Hb & Ha & Hout).
  setoid_rewrite mean_arithmetic in Hb. setoid_rewrite mean_arithmetic in Ha.
  rewrite mean_arithmetic in Hout.
  exists before, top, after.
  split; [done|]. split; [done|]. split; [done|]. split; [|done].
  intros Hrange Hlen.
  assert (Hin : ∀ s, s ∈ (before ++ top :: after)%list →
                     grades s ≠ [] ∧ Forall (λ g, 0 ≤ g ≤ 100) (grades s)
                     ∧ Z.of_nat (length (grades s)) < 4194304).
  { intros s Hs'. rewrite <- Heq in Hs'. apply list_elem_of_filter in Hs' as [Hg Hs'].
    unfold grades_in_range in Hrange. rewrite Forall_forall in Hrange, Hlen.
    split; [done|]. split; [by apply Hrange|by apply Hlen]. }
  destruct (Hin top) as (Ht1 & Ht2 & Ht3); [apply elem_of_app; right; by left|].
  rewrite Forall_forall in Hb, Ha. split; apply Forall_forall; intros s Hs'.
  - destruct (Hin s) as (Hs1 & Hs2 & Hs3); [apply elem_of_app; by left|].
    specialize (Hb s Hs').
    destruct (Qlt_le_dec (arithmetic_mean (grades s)) (arithmetic_mean (grades top)))
      as [|Hge]; [done|].
    apply Qle_lt_or_eq in Hge as [Hgt|Heq'].
    + pose proof (means_apart _ _ Hdiv Ht1 Hs1 Ht2 Hs2 Ht3 Hs3 Hgt). lra.
    + pose proof (fl_value _ Hdiv _ _ Heq'). lra.
  - destruct (Hin s) as (Hs1 & Hs2 & Hs3); [apply elem_of_app; right; by right|].
    specialize (Ha s Hs').
    destruct (Qlt_le_dec (arithmetic_mean (grades top)) (arithmetic_mean (grades s)))
      as [Hgt|]; [|done].
    pose proof (means_apart _ _ Hdiv Ht1 Hs1 Ht2 Hs2 Ht3 Hs3 Hgt). lra.
Qed.

Lemma find_top_performer_highest_float_witness :
  division_rounds binary64
  ∧ ∃ before top after,
      filter (λ s, grades s ≠ []) class_of_three = (before ++ top :: after)%list
      ∧ Forall (λ s, (arithmetic_mean (grades s) < arithmetic_mean (grades top))%Q) before
      ∧ Forall (λ s, (arithmetic_mean (grades s) <= arithmetic_mean (grades top))%Q) after
      ∧ stdout (find_top_performer (H := binary64) class_of_three [])
        = [Print ("The student with the highest average is " ++ name top
                  ++ " with a grade of "
                  ++ fmt1 (round_double (arithmetic_mean (grades top))) ++ ".")].
Proof.
  split; [exact binary64_division|].
  assert (Hne : filter (λ s, grades s ≠ []) class_of_three ≠ []) by discriminate.
  assert (Hrange : grades_in_range class_of_three).
  { unfold grades_in_range, class_of_three. repeat constructor; simpl; lia. }
  assert (Hlen : Forall (λ s, Z.of_nat (length (grades s)) < 4194304) class_of_three).
  { unfold class_of_three. repeat constructor. }
  destruct (proj1 (proj2 (proj2 (proj2 (proj2
              (find_top_performer_highest_float (H := binary64) class_of_three []
                 binary64_division))))) Hne)
    as (before & top & after & Heq & _ & _ & Hexact & Hout).
  exists before, top, after. destruct (Hexact Hrange Hlen) as [Hb Ha]. done.
Defined.

(** A mean halfway between two tenths: grades 92 and nineteen times 85
    have the arithmetic mean 1707/20 = 85.35, which rounds to 85.4 both
    with ties to the even digit and with ties upwards, and which exact
    arithmetic prints as 85.4.  The double nearest to 85.35 is below it,
    and the program prints 85.3. *)
Lemma find_top_performer_half_way :
  stdout (find_top_performer (H := binary64) half_way [])
  = [Print "The student with the highest average is Zed with a grade of 85.3."]
  ∧ Qcompare (arithmetic_mean (92 :: replicate 19 85)) (1707 # 20) = Eq
  ∧ round_half_even (arithmetic_mean (92 :: replicate 19 85) * 10) = 854
  ∧ Qfloor (arithmetic_mean (92 :: replicate 19 85) * 10 + (1 # 2)) = 854
  ∧ stdout (find_top_performer (H := exact) half_way [])
    = [Print "The student with the highest average is Zed with a grade of 85.4."].
Proof. vm_compute. repeat split. Qed.

(** The example of the specification: with means 70.0, 85.5 and 85.5 the
    first student who reaches 85.5 is named. *)
Example find_top_performer_tie :
  stdout (find_top_performer (H := exact) class_of_three [])
  = [Print "The student with the highest average is Bob with a grade of 85.5."].
Proof. vm_compute. reflexivity. Qed.

Example find_top_performer_tie_binary64 :
  stdout (find_top_performer (H := binary64) class_of_three [])
  = [Print "The student with the highest average is Bob with a grade of 85.5."].
Proof. vm_compute. reflexivity. Qed.

(** *** The report *)

Lemma report_loop_lines `{Float64} students averages :
  report_loop students averages
  = ((λ s, match grades s with
           | [] => Print (name s ++ "'s average grade is N/A.")
           | _ :: _ =>
               Print (name s ++ "'s average grade is "
                      ++ fmt1 (fl (mean (grades s))) ++ ".")
           end) <$> students,
     (averages
      ++ ((λ s, fl (mean (grades s))) <$> filter (λ s, grades s ≠ []) students))%list).
Proof.
  revert averages. induction students as [|s students IH]; intros averages.
  - simpl. by rewrite app_nil_r.
  - rewrite fmap_cons. cbn [report_loop].
    destruct (grades s) as [|g gs] eqn:Hg.
    + rewrite IH, filter_cons_False by (rewrite Hg; naive_solver). reflexivity.
    + rewrite truediv_len by done. rewrite IH, filter_cons_True by (by rewrite Hg).
      rewrite fmap_cons, Hg, <- app_assoc. reflexivity.
Qed.

Lemma summary_statistics `{Float64} a averages :
  ∃ max_avg min_avg,
    summary (a :: averages)
    = ([Print "---";
        Print ("Max Average: " ++ fmt1 max_avg);
        Print ("Min Average: " ++ fmt1 min_avg);
        Print ("Overall Average: "
               ++ fmt1 (fl (float_sum (a :: averages) / inject_Z (len (a :: averages)))))],
       None)
    ∧ max_avg ∈ a :: averages
    ∧ min_avg ∈ a :: averages
    ∧ Forall (λ x, (min_avg <= x ∧ x <= max_avg)%Q) (a :: averages).
Proof.
  destruct (fold_max averages a) as [Hmax_in Hmax].
  destruct (fold_min averages a) as [Hmin_in Hmin].
  eexists _, _. split; [|split; [exact Hmax_in|split; [exact Hmin_in|]]].
  - unfold summary, py_max, py_min, float_div.
    destruct (Z.eqb_spec (len (a :: averages)) 0) as [H0|_]; [|reflexivity].
    unfold len in H0. simpl in H0. lia.
  - rewrite Forall_forall in Hmax, Hmin. apply Forall_forall. intros x Hx.
    split; [by apply Hmin|by apply Hmax].
Qed.

(** In terms of the program's own quotients: the lines of the report and
    the statistics over the rounded quotients of the students who have a
    grade. *)
Lemma show_report_floats `{Float64} (students : list student) (stdin : list string) :
  students_after (show_report students stdin) = students
  ∧ stdin_after (show_report students stdin) = stdin
  ∧ raised (show_report students stdin) = None
  ∧ (students = [] →
       stdout (show_report students stdin) = [Print "No students available."])
  ∧ (students ≠ [] →
       ∃ stats,
         stdout (show_report students stdin)
         = (Print (newline ++ "--- Student Report ---")
            :: ((λ s, match grades s with
                      | [] => Print (name s ++ "'s average grade is N/A.")
                      | _ :: _ =>
                          Print (name s ++ "'s average grade is "
                                 ++ fmt1 (fl (mean (grades s))) ++ ".")
                      end) <$> students)
            ++ stats)%list
         ∧ (filter (λ s, grades s ≠ []) students = [] →
              stats = [Print "No students with grades available for summary statistics."])
         ∧ (filter (λ s, grades s ≠ []) students ≠ [] →
              ∃ max_avg min_avg,
                stats
                = [Print "---";
                   Print ("Max Average: " ++ fmt1 max_avg);
                   Print ("Min Average: " ++ fmt1 min_avg);
                   Print ("Overall Average: "
                          ++ fmt1 (fl (float_sum
                                         ((λ s, fl (mean (grades s)))
                                            <$> filter (λ s, grades s ≠ []) students)
                                       / inject_Z
                                           (len (filter (λ s, grades s ≠ []) students)))))]
                ∧ max_avg ∈ (λ s, fl (mean (grades s)))
                              <$> filter (λ s, grades s ≠ []) students
                ∧ min_avg ∈ (λ s, fl (mean (grades s)))
                              <$> filter (λ s, grades s ≠ []) students
                ∧ Forall (λ s, (min_avg <= fl (mean (grades s))
                                ∧ fl (mean (grades s)) <= max_avg)%Q)
                    (filter (λ s, grades s ≠ []) students)))
  ∧ (∀ x, (Qabs (Qabs x * 10 - inject_Z (tenths x)) <= 1 # 2)%Q).
Proof.
  destruct (show_report_students students stdin) as [Hs Hi].
  split; [done|]. split; [done|].
  split; [|split; [|split; [|apply tenths_nearest]]].
  - unfold show_report. destruct students as [|s students]; [done|].
    rewrite report_loop_lines. simpl app.
    destruct (_ <$> filter _ (s :: students)) as [|a averages]; [done|].
    by destruct (summary_statistics a averages) as (mx & mn & -> & _).
  - by intros ->.
  - intros Hne. unfold show_report. destruct students as [|s students]; [done|].
    rewrite report_loop_lines. simpl app.
    destruct (filter (λ s, grades s ≠ []) (s :: students)) as [|s1 l] eqn:Hf.
    + eexists. split; [reflexivity|]. split; [done|]. done.
    + rewrite fmap_cons.
      destruct (summary_statistics (fl (mean (grades s1))) ((λ s, fl (mean (grades s))) <$> l))
        as (mx & mn & Hsum & Hmx & Hmn & Hall).
      rewrite Hsum. eexists. split; [reflexivity|]. split; [done|]. intros _.
      exists mx, mn. split.
      { unfold len. cbn [length]. rewrite length_fmap. reflexivity. }
      split; [done|]. split; [done|].
      apply Forall_cons in Hall as [H1 Hl]. constructor; [done|].
      by apply Forall_fmap in Hl.
Qed.

(** C4.  In float arithmetic whose division and sum round as binary64
    does, [show_report] leaves the list and the console input as they are
    and raises nothing, a division by zero included.  For an empty list it
    prints that there is no student.  Otherwise it prints one line for
    every student, in order: N/A for a student without grades, and for any
    other student the float mean of the grades, which is the rounded
    arithmetic mean, in the format of one decimal.  The summary is over
    exactly the students who have a grade: the largest and the smallest of
    their float means, and the float mean of these float means, whose
    distance from the mean of the [n] arithmetic means is at most
    [(1 + 2^-53)^(n+2) - 1] times the mean of their absolute values; when
    no student has a grade a message of its own is printed instead.  The
    format shows the sign and the numeral of the tenth nearest to the
    float, which is within 1/20 + |q| * 2^-53 of the quotient [q] that was
    rounded. *)
Theorem show_report_float_means `{Float64} (students : list student) (stdin : list string) :
  division_rounds _ → sum_rounds _ →
  students_after (show_report students stdin) = students
  ∧ stdin_after (show_report students stdin) = stdin
  ∧ raised (show_report students stdin) = None
  ∧ (students = [] →
       stdout (show_report students stdin) = [Print "No students available."])
  ∧ (students ≠ [] →
       ∃ stats,
         stdout (show_report students stdin)
         = (Print (newline ++ "--- Student Report ---")
            :: ((λ s, match grades s with
                      | [] => Print (name s ++ "'s average grade is N/A.")
                      | _ :: _ =>
                          Print (name s ++ "'s average grade is "
                                 ++ fmt1 (fl (arithmetic_mean (grades s))) ++ ".")
                      end) <$> students)
            ++ stats)%list
         ∧ (filter (λ s, grades s ≠ []) students = [] →
              stats = [Print "No students with grades available for summary statistics."])
         ∧ (filter (λ s, grades s ≠ []) students ≠ [] →
              ∃ max_avg min_avg,
                stats
                = [Print "---";
                   Print ("Max Average: " ++ fmt1 (fl max_avg));
                   Print ("Min Average: " ++ fmt1 (fl min_avg));
                   Print ("Overall Average: "
                          ++ fmt1 (fl (float_sum
                                         ((λ s, fl (arithmetic_mean (grades s)))
                                            <$> filter (λ s, grades s ≠ []) students)
                                       / inject_Z
                                           (Z.of_nat
                                              (length
                                                 (filter (λ s, grades s ≠ []) students))))))]
                ∧ max_avg ∈ (λ s, arithmetic_mean (grades s))
                              <$> filter (λ s, grades s ≠ []) students
                ∧ min_avg ∈ (λ s, arithmetic_mean (grades s))
                              <$> filter (λ s, grades s ≠ []) students
                ∧ Forall (λ s, (fl min_avg <= fl (arithmetic_mean (grades s))
                                ∧ fl (arithmetic_mean (grades s)) <= fl max_avg)%Q)
                    (filter (λ s, grades s ≠ []) students)
                ∧ (Qabs (fl (float_sum
                               ((λ s, fl (arithmetic_mean (grades s)))
                                  <$> filter (λ s, grades s ≠ []) students)
                             / inject_Z
                                 (Z.of_nat (length (filter (λ s, grades s ≠ []) students))))
                         - Qsum ((λ s, arithmetic_mean (grades s))
                                   <$> filter (λ s, grades s ≠ []) students)
                           / inject_Z (Z.of_nat
                                         (length (filter (λ s, grades s ≠ []) students))))
                   <= ((1 + unit_roundoff)
                       ^ Z.of_nat (length (filter (λ s, grades s ≠ []) students) + 2) - 1)
                      * (Qsum_abs ((λ s, arithmetic_mean (grades s))
                                     <$> filter (λ s, grades s ≠ []) students)
                         / inject_Z (Z.of_nat
                                       (length (filter (λ s, grades s ≠ []) students)))))%Q))
  ∧ (∀ q,
       fmt1 (fl q)
       = ((if Qlt_le_dec q 0 then "-" else "")
          ++ NilZero.string_of_int (Z.to_int (tenths (fl q) / 10)) ++ "."
          ++ NilZero.string_of_int (Z.to_int (tenths (fl q) mod 10)))%string
       ∧ 0 ≤ tenths (fl q)
       ∧ (Qabs (Qabs (fl q) * 10 - inject_Z (tenths (fl q))) <= 1 # 2)%Q
       ∧ (Qabs (inject_Z (tenths (fl q)) / 10 - Qabs q)
          <= (1 # 20) + Qabs q * unit_roundoff)%Q).
Proof.
  intros Hdiv Hsum.
  destruct (show_report_floats students stdin)
    as (Hs & Hi & Hr & Hnone & Hsome & _).
  split; [done|]. split; [done|]. split; [done|]. split; [done|].
  split; [|intros q; by apply fmt1_rounded].
  intros Hne. destruct (Hsome Hne) as (stats & Hout & Hno & Hstats).
  exists stats. split; [|split; [done|]].
  { rewrite Hout. do 2 f_equal. apply list_fmap_ext. intros _ s _.
    by rewrite mean_arithmetic. }
  intros Hq. destruct (Hstats Hq) as (mx & mn & Hst & Hmx & Hmn & Hall).
  clear Hsome Hstats Hno Hout.
  set (q := filter (λ s, grades s ≠ []) students) in *.
  apply list_elem_of_fmap in Hmx as (smx & Hmx & Hinx).
  apply list_elem_of_fmap in Hmn as (smn & Hmn & Hinn).
  rewrite mean_arithmetic in Hmx, Hmn.
  exists (arithmetic_mean (grades smx)), (arithmetic_mean (grades smn)).
  assert (Hfl : (λ s, fl (mean (grades s))) <$> q
                = (λ s, fl (arithmetic_mean (grades s))) <$> q).
  { apply list_fmap_ext. intros _ s _. by rewrite mean_arithmetic. }
  split; [|split; [|split; [|split]]].
  - by rewrite Hst, Hmx, Hmn, Hfl.
  - apply list_elem_of_fmap. by exists smx.
  - apply list_elem_of_fmap. by exists smn.
  - rewrite <- Hmx, <- Hmn. eapply Forall_impl; [exact Hall|].
    intros s Hs'. simpl in Hs'. by rewrite <- mean_arithmetic.
  - pose proof (overall_near ((λ s, arithmetic_mean (grades s)) <$> q) Hdiv Hsum) as Ho.
    rewrite length_fmap, <- list_fmap_compose in Ho. apply Ho.
    destruct q; [done|discriminate].
Qed.

Lemma show_report_float_means_witness :
  division_rounds binary64 ∧ sum_rounds binary64 ∧ class_of_three ≠ []
  ∧ ∃ stats,
      stdout (show_report (H := binary64) class_of_three [])
      = (Print (newline ++ "--- Student Report ---")
         :: ((λ s, match grades s with
                   | [] => Print (name s ++ "'s average grade is N/A.")
                   | _ :: _ =>
                       Print (name s ++ "'s average grade is "
                              ++ fmt1 (round_double (arithmetic_mean (grades s))) ++ ".")
                   end) <$> class_of_three)
         ++ stats)%list.
Proof.
  assert (Hne : class_of_three ≠ []) by discriminate.
  split; [exact binary64_division|]. split; [exact binary64_sum|]. split; [exact Hne|].
  destruct (proj1 (proj2 (proj2 (proj2 (proj2
              (show_report_float_means (H := binary64) class_of_three []
                 binary64_division binary64_sum))))) Hne)
    as (stats & Hout & _).
  exists stats. exact Hout.
Defined.

(** The report of the student whose mean is 85.35: rounded to one
    decimal the arithmetic mean is 85.4, with ties to the even digit and
    with ties upwards alike, and exact arithmetic prints 85.4; the program
    divides in binary64 and prints 85.3. *)
Lemma show_report_half_way :
  stdout (show_report (H := binary64) half_way [])
  = [Print (newline ++ "--- Student Report ---");
     Print "Zed's average grade is 85.3.";
     Print "---";
     Print "Max Average: 85.3";
     Print "Min Average: 85.3";
     Print "Overall Average: 85.3"]
  ∧ Qcompare (arithmetic_mean (92 :: replicate 19 85)) (1707 # 20) = Eq
  ∧ round_half_even (arithmetic_mean (92 :: replicate 19 85) * 10) = 854
  ∧ Qfloor (arithmetic_mean (92 :: replicate 19 85) * 10 + (1 # 2)) = 854
  ∧ nth 1 (stdout (show_report (H := exact) half_way [])) (Print "")
    = Print "Zed's average grade is 85.4.".
Proof. vm_compute. repeat split. Qed.

Example show_report_sample :
  stdout (show_report (H := exact)
            (class_of_three ++ [{| name := "Dee"; grades := [] |}]) [])
  = [Print (newline ++ "--- Student Report ---");
     Print "Ann's average grade is 70.0.";
     Print "Bob's average grade is 85.5.";
     Print "Cy's average grade is 85.5.";
     Print "Dee's average grade is N/A.";
     Print "---";
     Print "Max Average: 85.5";
     Print "Min Average: 70.0";
     Print "Overall Average: 80.3"].
Proof. vm_compute. reflexivity. Qed.

Example show_report_sample_binary64 :
  stdout (show_report (H := binary64)
            (class_of_three ++ [{| name := "Dee"; grades := [] |}]) [])
  = [Print (newline ++ "--- Student Report ---");
     Print "Ann's average grade is 70.0.";
     Print "Bob's average grade is 85.5.";
     Print "Cy's average grade is 85.5.";
     Print "Dee's average grade is N/A.";
     Print "---";
     Print "Max Average: 85.5";
     Print "Min Average: 70.0";
     Print "Overall Average: 80.3"].
Proof. vm_compute. reflexivity. Qed.

Example show_report_no_grades :
  stdout (show_report (H := exact) [{| name := "Dee"; grades := [] |}] [])
  = [Print (newline ++ "--- Student Report ---");
     Print "Dee's average grade is N/A.";
     Print "No students with grades available for summary statistics."].
Proof. vm_compute. reflexivity. Qed.

(** *** White space around a name *)

Lemma lstrip_no_lead s : no_lead (lstrip s).
Proof.
  induction s as [|c s IH]; simpl; [done|].
  by destruct (is_space c) eqn:Hc.
Qed.

Lemma lstrip_id s : no_lead s → lstrip s = s.
Proof. destruct s as [|c s]; simpl; [done|]. by intros ->. Qed.

Lemma rstrip_no_lead s : no_lead s → no_lead (rstrip s).
Proof.
  destruct s as [|c s]; simpl; [done|]. intros Hc.
  destruct (rstrip s); [by rewrite Hc|done].
Qed.

Lemma rstrip_idemp s : rstrip (rstrip s) = rstrip s.
Proof.
  induction s as [|c s IH]; [done|]. cbn [rstrip].
  destruct (rstrip s) as [|d r] eqn:Hr.
  - destruct (is_space c) eqn:Hc; [done|]. simpl. by rewrite Hc.
  - cbn [rstrip]. cbn [rstrip] in IH. by rewrite IH.
Qed.

Lemma strip_idemp s : strip (strip s) = strip s.
Proof.
  unfold strip. rewrite (lstrip_id (rstrip (lstrip s))).
  - apply rstrip_idemp.
  - apply rstrip_no_lead, lstrip_no_lead.
Qed.

(** *** Names stay in order *)

Lemma add_new_student_names students stdin :
  names_in_order students →
  names_in_order (students_after (add_new_student students stdin)).
Proof.
  intros [Hall Hnd]. unfold add_new_student. destruct stdin as [|line stdin]; [done|].
  destruct (strip line) as [|c n] eqn:Hn; [done|]. simpl.
  destruct (find_student (String c n) students) eqn:Hfind; [done|]. simpl. split.
  - apply Forall_app. split; [done|]. repeat constructor; simpl; [done|].
    rewrite <- Hn. apply strip_idemp.
  - rewrite fmap_app. apply NoDup_app. split; [done|]. split; [|apply NoDup_singleton].
    intros x (s & -> & Hs)%list_elem_of_fmap Hx%list_elem_of_singleton. simpl in Hx.
    by apply (proj1 (find_student_None _ _) Hfind s).
Qed.

Lemma insert_same_name (students : list student) i s gs :
  students !! i = Some s →
  name <$> <[i := {| name := name s; grades := gs |}]> students = name <$> students.
Proof.
  intros Hi. rewrite list_fmap_insert. simpl. apply list_insert_id.
  by rewrite list_lookup_fmap, Hi.
Qed.

Lemma names_in_order_names students students' :
  name <$> students' = name <$> students →
  names_in_order students → names_in_order students'.
Proof.
  intros Heq [Hall Hnd]. split.
  - apply (Forall_fmap name (λ n, n ≠ "" ∧ strip n = n)).
    rewrite Heq. by apply Forall_fmap.
  - rewrite (list_fmap_compose name lower) in Hnd |- *. by rewrite Heq.
Qed.

Lemma add_grades_for_student_names students stdin :
  name <$> students_after (add_grades_for_student students stdin) = name <$> students.
Proof.
  unfold add_grades_for_student. destruct stdin as [|line stdin]; [done|].
  destruct (truthy_str (strip line)); simpl; [|done].
  destruct (find_student (strip line) students) as [[i s]|] eqn:Hfind; simpl; [|done].
  apply find_student_Some in Hfind as (Hi & _).
  destruct (grade_loop stdin (grades s)) as [[[gs stdin'] written] e]. simpl.
  by apply insert_same_name.
Qed.

Lemma menu_call_names `{Float64} choice students stdin r :
  menu_call choice students stdin = Some r →
  names_in_order students → names_in_order (students_after r).
Proof.
  unfold menu_call. intros Hr.
  repeat match type of Hr with
         | (if ?c then _ else _) = _ => destruct c
         end; simplify_eq.
  - apply add_new_student_names.
  - apply names_in_order_names, add_grades_for_student_names.
  - by destruct (show_report_students students stdin) as [-> _].
  - by destruct (find_top_performer_students students stdin) as (-> & _).
Qed.

(** A property of the list that every function of the menu keeps holds
    through the loop of [main]. *)
Lemma main_loop_keeps `{Float64} (P : list student → Prop) :
  (∀ choice students stdin r,
     menu_call choice students stdin = Some r → P students → P (students_after r)) →
  ∀ fuel students stdin, P students → P (main_loop fuel students stdin).1.1.
Proof.
  intros Hcall fuel. induction fuel as [|fuel IH]; intros students stdin Hs; [done|].
  destruct stdin as [|line stdin]; [done|]. rewrite main_loop_step.
  destruct (negb (truthy_str (strip line))).
  { specialize (IH students stdin Hs).
    by destruct (main_loop fuel students stdin) as [[? ?] ?]. }
  destruct (menu_call (strip line) students stdin) as [r|] eqn:Hr.
  - specialize (IH (students_after r) (stdin_after r) (Hcall _ _ _ _ Hr Hs)).
    by destruct (main_loop fuel _ _) as [[? ?] ?].
  - destruct (String.eqb (strip line) "5"); [done|].
    specialize (IH students stdin Hs).
    by destruct (main_loop fuel students stdin) as [[? ?] ?].
Qed.

(** X1.  In a run of the program the names of the students are in order:
    none is empty, none has white space around it, and no two are the same
    up to the case of letters.  The loop of [main] keeps this from any
    list that has it. *)
Theorem main_names_in_order `{Float64} (stdin : list string) :
  names_in_order (main stdin).1.1
  ∧ ∀ fuel students stdin,
      names_in_order students → names_in_order (main_loop fuel students stdin).1.1.
Proof.
  assert (Hloop : ∀ fuel students stdin,
             names_in_order students → names_in_order (main_loop fuel students stdin).1.1).
  { apply main_loop_keeps. intros choice students stdin' r. apply menu_call_names. }
  split; [|done]. apply Hloop. split; constructor.
Qed.

(** *** Students and grades are kept *)

Lemma kept_refl students : kept students students.
Proof. intros i s Hi. by exists s. Qed.

Lemma kept_trans l1 l2 l3 : kept l1 l2 → kept l2 l3 → kept l1 l3.
Proof.
  intros H12 H23 i s Hi.
  destruct (H12 i s Hi) as (s2 & Hi2 & Hn2 & Hg2).
  destruct (H23 i s2 Hi2) as (s3 & Hi3 & Hn3 & Hg3).
  exists s3. split; [done|]. split; [congruence|]. by etrans.
Qed.

Lemma grade_loop_prefix stdin gs : gs `prefix_of` (grade_loop stdin gs).1.1.1.
Proof.
  revert gs. induction stdin as [|entry stdin IH]; intros gs; [done|].
  destruct (decide (is_done entry)) as [Hd|Hd].
  - by rewrite grade_loop_done.
  - destruct (grade_loop_continue entry Hd) as (reply & _ & ->).
    specialize (IH (gs ++ option_list (accepted entry))%list).
    destruct (grade_loop stdin _) as [[[gs' stdin'] written] e]. simpl in *.
    etrans; [|exact IH]. by apply prefix_app_r.
Qed.

Lemma add_new_student_kept students stdin :
  kept students (students_after (add_new_student students stdin)).
Proof.
  unfold add_new_student. destruct stdin as [|line stdin]; [apply kept_refl|].
  destruct (truthy_str (strip line)); simpl; [|apply kept_refl].
  destruct (find_student (strip line) students); simpl; [apply kept_refl|].
  intros i s Hi. exists s. split; [|done]. by apply lookup_app_l_Some.
Qed.

Lemma add_grades_for_student_kept students stdin :
  kept students (students_after (add_grades_for_student students stdin)).
Proof.
  unfold add_grades_for_student. destruct stdin as [|line stdin]; [apply kept_refl|].
  destruct (truthy_str (strip line)); simpl; [|apply kept_refl].
  destruct (find_student (strip line) students) as [[i s]|] eqn:Hfind; simpl;
    [|apply kept_refl].
  apply find_student_Some in Hfind as (Hi & _).
  pose proof (grade_loop_prefix stdin (grades s)) as Hp.
  destruct (grade_loop stdin (grades s)) as [[[gs stdin'] written] e]. simpl in *.
  intros j s' Hj. destruct (decide (j = i)) as [->|Hne].
  - simplify_eq. exists {| name := name s; grades := gs |}. split; [|done].
    apply list_lookup_insert_eq. by eapply lookup_lt_Some.
  - exists s'. split; [|done]. by rewrite list_lookup_insert_ne.
Qed.

Lemma menu_call_kept `{Float64} choice students stdin r :
  menu_call choice students stdin = Some r → kept students (students_after r).
Proof.
  unfold menu_call. intros Hr.
  repeat match type of Hr with
         | (if ?c then _ else _) = _ => destruct c
         end; simplify_eq.
  - apply add_new_student_kept.
  - apply add_grades_for_student_kept.
  - destruct (show_report_students students stdin) as [-> _]. apply kept_refl.
  - destruct (find_top_performer_students students stdin) as (-> & _). apply kept_refl.
Qed.

(** X2.  No student is removed, moved or renamed, and no grade is removed
    or changed: after [add_new_student], after [add_grades_for_student]
    and after any number of turns of the loop of [main], every student is
    at the same place under the same name, with the same grades and
    possibly more after them. *)
Theorem students_kept `{Float64} (fuel : nat) (students : list student) (stdin : list string) :
  kept students (students_after (add_new_student students stdin))
  ∧ kept students (students_after (add_grades_for_student students stdin))
  ∧ kept students (main_loop fuel students stdin).1.1.
Proof.
  split; [apply add_new_student_kept|]. split; [apply add_grades_for_student_kept|].
  apply (main_loop_keeps (λ l, kept students l)); [|apply kept_refl].
  intros choice l stdin' r Hr Hl. eapply kept_trans; [exact Hl|]. by eapply menu_call_kept.
Qed.

(** *** Adding grades: the student addressed *)

Lemma find_student_first n students i s :
  students !! i = Some s →
  lower (name s) = lower n →
  (∀ j s', (j < i)%nat → students !! j = Some s' → lower (name s') ≠ lower n) →
  find_student n students = Some (i, s).
Proof.
  revert i. induction students as [|s0 students IH]; intros i Hi Hname Hfirst; [done|].
  simpl. unfold same_name.
  destruct (String.eqb_spec (lower (name s0)) (lower n)) as [He|Hne].
  - destruct i as [|i]; [by injection Hi as ->|].
    exfalso. apply (Hfirst 0%nat s0); [lia|done|done].
  - destruct i as [|i]; [by injection Hi as ->|]. simpl in Hi.
    rewrite (IH i Hi Hname); [done|].
    intros j s' Hj Hs'. apply (Hfirst (S j) s'); [lia|done].
Qed.

(** X3.  [add_grades_for_student] with an empty name, or with a name no
    student has, prints its error, reads no further line and leaves the
    list as it is.  Otherwise it addresses the first student with that
    name up to the case of letters: the list keeps its length, every other
    student stays as it is, and the student addressed keeps its name and
    gets the grades the loop leaves. *)
Theorem add_grades_for_student_frame (students : list student) (line : string)
    (stdin : list string) :
  (strip line = "" →
     add_grades_for_student students (line :: stdin)
     = {| students_after := students; stdin_after := stdin;
          stdout := [Prompt "Enter student name: ";
                     Print "Error: Student name cannot be empty."];
          raised := None |})
  ∧ (strip line ≠ "" →
     (∀ s, s ∈ students → lower (name s) ≠ lower (strip line)) →
     add_grades_for_student students (line :: stdin)
     = {| students_after := students; stdin_after := stdin;
          stdout := [Prompt "Enter student name: ";
                     Print ("Student '" ++ strip line ++ "' not found.")];
          raised := None |})
  ∧ (strip line ≠ "" →
     ∀ i s,
       students !! i = Some s →
       lower (name s) = lower (strip line) →
       (∀ j s', (j < i)%nat → students !! j = Some s' →
                lower (name s') ≠ lower (strip line)) →
       length (students_after (add_grades_for_student students (line :: stdin)))
       = length students
       ∧ (∀ j, j ≠ i →
               students_after (add_grades_for_student students (line :: stdin)) !! j
               = students !! j)
       ∧ students_after (add_grades_for_student students (line :: stdin)) !! i
         = Some {| name := name s; grades := (grade_loop stdin (grades s)).1.1.1 |}).
Proof.
  split_and!.
  - intros Hn. unfold add_grades_for_student. by rewrite Hn.
  - intros Hn Hnone. unfold add_grades_for_student.
    destruct (strip line) as [|c n] eqn:Hs; [done|]. simpl.
    by rewrite (proj2 (find_student_None _ _) Hnone).
  - intros Hn i s Hi Hname Hfirst.
    destruct (add_grades_for_student_found students line stdin i s Hn
                (find_student_first _ _ _ _ Hi Hname Hfirst)) as [-> _].
    split; [apply length_insert|]. split.
    + intros j Hj. by rewrite list_lookup_insert_ne.
    + apply list_lookup_insert_eq. by eapply lookup_lt_Some.
Qed.

Lemma lower_empty s : lower s = "" → s = "".
Proof. by destruct s. Qed.

(** X4.  A student added under a new name is the one that
    [add_grades_for_student] addresses under that name in any case of
    letters: the grades entered before the word done, those that are
    accepted, become the grades of the new student, and the lines after
    the word done are left unread. *)
Theorem add_then_grade (students : list student) (line line' : string)
    (stdin entries : list string) (d : string) (rest : list string) :
  strip line ≠ "" →
  (∀ s, s ∈ students → lower (name s) ≠ lower (strip line)) →
  lower (strip line') = lower (strip line) →
  Forall (λ entry, ¬ is_done entry) entries →
  is_done d →
  students_after
    (add_grades_for_student
       (students_after (add_new_student students (line :: stdin)))
       (line' :: entries ++ d :: rest))
  = (students ++ [{| name := strip line; grades := omap accepted entries |}])%list
  ∧ stdin_after
      (add_grades_for_student
         (students_after (add_new_student students (line :: stdin)))
         (line' :: entries ++ d :: rest))
    = rest.
Proof.
  intros Hn Hnone Hsame Hentries Hd.
  assert (Hadd : students_after (add_new_student students (line :: stdin))
                 = (students ++ [{| name := strip line; grades := [] |}])%list).
  { unfold add_new_student. destruct (strip line) as [|c n] eqn:Hs; [done|]. simpl.
    by rewrite (proj2 (find_student_None _ _) Hnone). }
  rewrite Hadd.
  assert (Hn' : strip line' ≠ "").
  { intros H0. rewrite H0 in Hsame. simpl in Hsame. symmetry in Hsame.
    by apply lower_empty in Hsame. }
  assert (Hfind : find_student (strip line')
                    (students ++ [{| name := strip line; grades := [] |}])
                  = Some (length students, {| name := strip line; grades := [] |})).
  { apply find_student_first.
    - by rewrite list_lookup_middle.
    - done.
    - intros j s' Hj Hs'. rewrite lookup_app_l in Hs' by done. rewrite Hsame.
      apply Hnone. by eapply list_elem_of_lookup_2. }
  destruct (add_grades_for_student_found _ line' (entries ++ d :: rest) _ _ Hn' Hfind)
    as [-> ->].
  destruct (grade_loop_entries entries Hentries) as (replies & _ & Hloop).
  rewrite Hloop, grade_loop_done by done. simpl.
  split; [|done].
  rewrite insert_app_r_alt by done. by rewrite Nat.sub_diag.
Qed.

(** *** The report and the top performer agree *)

Lemma max_from_fold {A} (key : A → exception + Q) (k : A → Q) best l top :
  (∀ x, x ∈ l → key x = inr (k x)) →
  max_from key best (k best) l = inr top →
  fold_left (λ m y, if Qltb m y then y else m) (k <$> l) (k best) = k top.
Proof.
  revert best. induction l as [|x l IH]; intros best Hkey Hmax; simpl in *.
  - by injection Hmax as ->.
  - rewrite (Hkey x) in Hmax by by left.
    assert (Hl : ∀ y, y ∈ l → key y = inr (k y)) by (intros y Hy; apply Hkey; by right).
    destruct (Qltb (k best) (k x)); by apply IH.
Qed.

Lemma summary_max `{Float64} a averages :
  Print ("Max Average: "
         ++ fmt1 (fold_left (λ m y, if Qltb m y then y else m) averages a))
    ∈ (summary (a :: averages)).1.
Proof.
  unfold summary, py_max, py_min, float_div.
  destruct (Z.eqb_spec (len (a :: averages)) 0) as [H0|_].
  { unfold len in H0. simpl in H0. lia. }
  simpl. right. by left.
Qed.

(** X6.  When some student has a grade, the mean that
    [find_top_performer] prints for the student it names is the one that
    [show_report] prints as the largest mean. *)
Theorem top_performer_is_report_max `{Float64} (students : list student)
    (stdin stdin' : list string) :
  filter (λ s, grades s ≠ []) students ≠ [] →
  ∃ top,
    top ∈ students
    ∧ grades top ≠ []
    ∧ stdout (find_top_performer students stdin)
      = [Print ("The student with the highest average is " ++ name top
                ++ " with a grade of " ++ fmt1 (fl (mean (grades top))) ++ ".")]
    ∧ Print ("Max Average: " ++ fmt1 (fl (mean (grades top))))
        ∈ stdout (show_report students stdin').
Proof.
  intros Hsome.
  assert (Hkey : ∀ s, s ∈ filter (λ s, grades s ≠ []) students →
                      average s = inr (fl (mean (grades s)))).
  { intros s [Hg _]%list_elem_of_filter. by apply average_with_grades. }
  destruct (filter (λ s, grades s ≠ []) students) as [|x l] eqn:Hf; [done|].
  destruct (py_max_key_first average (λ s, fl (mean (grades s))) x l Hkey)
    as (before & top & after & Heq & Hmax & _).
  assert (Htop : top ∈ x :: l) by (rewrite Heq; apply elem_of_app; right; by left).
  assert (Hin : top ∈ students ∧ grades top ≠ []).
  { rewrite <- Hf in Htop. apply list_elem_of_filter in Htop. tauto. }
  exists top. split; [tauto|]. split; [tauto|]. split.
  - unfold find_top_performer. rewrite Hf, Hmax, (Hkey top Htop). done.
  - unfold show_report. destruct students as [|s0 students]; [done|].
    rewrite report_loop_lines, Hf, app_nil_l, fmap_cons.
    pose proof (summary_max (fl (mean (grades x))) ((λ s, fl (mean (grades s))) <$> l))
      as Hsum.
    destruct (summary _) as [stats e]. cbn [stdout fst] in *.
    right. apply elem_of_app. right.
    replace (fl (mean (grades top)))
      with (fold_left (λ m y, if Qltb m y then y else m)
              ((λ s, fl (mean (grades s))) <$> l) (fl (mean (grades x)))); [done|].
    apply (max_from_fold average (λ s, fl (mean (grades s))) x l top).
    + intros y Hy. apply Hkey. by right.
    + simpl in Hmax. rewrite (Hkey x) in Hmax by by left. done.
Qed.

(** *** Leaving the program *)

Lemma grade_loop_suffix stdin gs : (grade_loop stdin gs).1.1.2 `suffix_of` stdin.
Proof.
  revert gs. induction stdin as [|entry stdin IH]; intros gs; [done|].
  destruct (decide (is_done entry)) as [Hd|Hd].
  - rewrite grade_loop_done by done. simpl. by apply suffix_cons_r.
  - destruct (grade_loop_continue entry Hd) as (reply & _ & ->).
    specialize (IH (gs ++ option_list (accepted entry))%list).
    destruct (grade_loop stdin _) as [[[gs' stdin'] written] e]. simpl in *.
    by apply suffix_cons_r.
Qed.

Lemma menu_call_suffix `{Float64} choice students stdin r :
  menu_call choice students stdin = Some r → stdin_after r `suffix_of` stdin.
Proof.
  unfold menu_call. intros Hr.
  repeat match type of Hr with
         | (if ?c then _ else _) = _ => destruct c
         end; simplify_eq.
  - unfold add_new_student. destruct stdin as [|line stdin]; [done|].
    destruct (truthy_str (strip line)); simpl; [|by apply suffix_cons_r].
    destruct (find_student (strip line) students); simpl; by apply suffix_cons_r.
  - unfold add_grades_for_student. destruct stdin as [|line stdin]; [done|].
    destruct (truthy_str (strip line)); simpl; [|by apply suffix_cons_r].
    destruct (find_student (strip line) students) as [[i s]|]; simpl;
      [|by apply suffix_cons_r].
    pose proof (grade_loop_suffix stdin (grades s)) as Hs.
    destruct (grade_loop stdin (grades s)) as [[[gs stdin'] written] e]. simpl in *.
    by apply suffix_cons_r.
  - by destruct (show_report_students students stdin) as [_ ->].
  - by destruct (find_top_performer_students students stdin) as (_ & -> & _).
Qed.

Lemma main_loop_exited `{Float64} fuel students stdin :
  (main_loop fuel students stdin).2 = Exited →
  ∃ line, line ∈ stdin ∧ strip line = "5".
Proof.
  revert students stdin. induction fuel as [|fuel IH]; intros students stdin; [done|].
  destruct stdin as [|line stdin]; [done|]. rewrite main_loop_step.
  destruct (negb (truthy_str (strip line))).
  { specialize (IH students stdin).
    destruct (main_loop fuel students stdin) as [[st out] how]. simpl in *.
    intros (ln & Hl & H5)%IH. exists ln. split; [by right|done]. }
  destruct (menu_call (strip line) students stdin) as [r|] eqn:Hr.
  - apply menu_call_suffix in Hr as [k Hk].
    specialize (IH (students_after r) (stdin_after r)).
    destruct (main_loop fuel _ _) as [[st out] how]. simpl in *.
    intros (ln & Hl & H5)%IH. exists ln. split; [|done].
    right. rewrite Hk. apply elem_of_app. by right.
  - destruct (String.eqb_spec (strip line) "5") as [H5|_].
    + intros _. exists line. split; [by left|done].
    + specialize (IH students stdin).
      destruct (main_loop fuel students stdin) as [[st out] how]. simpl in *.
      intros (ln & Hl & H5)%IH. exists ln. split; [by right|done].
Qed.

Lemma last_app_Some {A} (l1 l2 : list A) x :
  last l2 = Some x → last (l1 ++ l2)%list = Some x.
Proof. intros Hl. by rewrite last_app, Hl. Qed.

Lemma main_loop_exited_last `{Float64} fuel students stdin :
  (main_loop fuel students stdin).2 = Exited →
  last (main_loop fuel students stdin).1.2 = Some (Print "Exiting program.").
Proof.
  revert students stdin. induction fuel as [|fuel IH]; intros students stdin; [done|].
  destruct stdin as [|line stdin]; [done|]. rewrite main_loop_step.
  destruct (negb (truthy_str (strip line))).
  { specialize (IH students stdin).
    destruct (main_loop fuel students stdin) as [[st out] how]. cbn [fst snd] in *.
    intros Hex. by apply last_app_Some, last_app_Some, IH. }
  destruct (menu_call (strip line) students stdin) as [r|] eqn:Hr.
  - specialize (IH (students_after r) (stdin_after r)).
    destruct (main_loop fuel _ _) as [[st out] how]. cbn [fst snd] in *.
    intros Hex. by apply last_app_Some, last_app_Some, IH.
  - destruct (String.eqb_spec (strip line) "5") as [H5|_].
    + intros _. cbn [fst snd]. by apply last_app_Some.
    + specialize (IH students stdin).
      destruct (main_loop fuel students stdin) as [[st out] how]. cbn [fst snd] in *.
      intros Hex. by apply last_app_Some, last_app_Some, IH.
Qed.

(** X7.  [main] leaves its loop on choice 5 only: when the run is left
    with [break], some line of the input is 5 up to white space and the
    last line printed is the farewell; on an input without such a line the
    run is never left with [break]. *)
Theorem main_exits_only_on_five `{Float64} (stdin : list string) :
  ((main stdin).2 = Exited →
     (∃ line, line ∈ stdin ∧ strip line = "5")
     ∧ last (main stdin).1.2 = Some (Print "Exiting program."))
  ∧ ((∀ line, line ∈ stdin → strip line ≠ "5") → (main stdin).2 ≠ Exited).
Proof.
  split.
  - intros Hex. split.
    + exact (main_loop_exited (S (length stdin)) [] stdin Hex).
    + exact (main_loop_exited_last (S (length stdin)) [] stdin Hex).
  - intros Hno Hex.
    destruct (main_loop_exited (S (length stdin)) [] stdin Hex) as (l & Hl & H5).
    by destruct (Hno l Hl).
Qed.

(** *** The same name twice *)

(** X5.  Adding a name a second time, in any case of letters and with any
    white space around it, adds nothing: the list holds the student added
    the first time once, and the second call prints that the student
    exists. *)
Theorem add_new_student_twice (students : list student) (line line' : string)
    (stdin stdin' : list string) :
  strip line ≠ "" →
  (∀ s, s ∈ students → lower (name s) ≠ lower (strip line)) →
  lower (strip line') = lower (strip line) →
  students_after
    (add_new_student (students_after (add_new_student students (line :: stdin)))
       (line' :: stdin'))
  = (students ++ [{| name := strip line; grades := [] |}])%list
  ∧ stdout
      (add_new_student (students_after (add_new_student students (line :: stdin)))
         (line' :: stdin'))
    = [Prompt "Enter student name: ";
       Print ("Student '" ++ strip line' ++ "' already exists.")].
Proof.
  intros Hn Hnone Hsame.
  assert (Hadd : students_after (add_new_student students (line :: stdin))
                 = (students ++ [{| name := strip line; grades := [] |}])%list).
  { unfold add_new_student. destruct (strip line) as [|c n] eqn:Hs; [done|]. simpl.
    by rewrite (proj2 (find_student_None _ _) Hnone). }
  rewrite Hadd.
  assert (Hfind : find_student (strip line')
                    (students ++ [{| name := strip line; grades := [] |}])
                  = Some (length students, {| name := strip line; grades := [] |})).
  { apply find_student_first.
    - by rewrite list_lookup_middle.
    - done.
    - intros j s' Hj Hs'. rewrite lookup_app_l in Hs' by done. rewrite Hsame.
      apply Hnone. by eapply list_elem_of_lookup_2. }
  unfold add_new_student.
  destruct (strip line') as [|c n] eqn:Hs'.
  { simpl in Hsame. symmetry in Hsame. by apply lower_empty in Hsame. }
  simpl. by rewrite Hfind.
Qed.

Lemma add_new_student_twice_witness :
  strip "Dee" ≠ ""
  ∧ (∀ s, s ∈ class_of_three → lower (name s) ≠ lower (strip "Dee"))
  ∧ lower (strip " DEE ") = lower (strip "Dee")
  ∧ students_after
      (add_new_student (students_after (add_new_student class_of_three ["Dee"])) [" DEE "])
    = (class_of_three ++ [{| name := strip "Dee"; grades := [] |}])%list.
Proof.
  assert (Hn : strip "Dee" ≠ "") by discriminate.
  assert (Hnone : ∀ s, s ∈ class_of_three → lower (name s) ≠ lower (strip "Dee")).
  { intros s Hs. unfold class_of_three in Hs.
    repeat (apply elem_of_cons in Hs as [->|Hs]; [discriminate|]).
    by apply elem_of_nil in Hs. }
  assert (Hsame : lower (strip " DEE ") = lower (strip "Dee")) by reflexivity.
  split; [exact Hn|]. split; [exact Hnone|]. split; [exact Hsame|].
  exact (proj1 (add_new_student_twice class_of_three "Dee" " DEE " [] [] Hn Hnone Hsame)).
Defined.

Lemma add_then_grade_witness :
  strip "Dee" ≠ ""
  ∧ (∀ s, s ∈ class_of_three → lower (name s) ≠ lower (strip "Dee"))
  ∧ lower (strip "dee") = lower (strip "Dee")
  ∧ Forall (λ entry, ¬ is_done entry) ["90"; "x"; "100"]
  ∧ is_done "done"
  ∧ students_after
      (add_grades_for_student
         (students_after (add_new_student class_of_three ["Dee"; "2"]))
         ("dee" :: ["90"; "x"; "100"] ++ "done" :: ["5"]))
    = (class_of_three
       ++ [{| name := strip "Dee"; grades := omap accepted ["90"; "x"; "100"] |}])%list.
Proof.
  assert (Hn : strip "Dee" ≠ "") by discriminate.
  assert (Hnone : ∀ s, s ∈ class_of_three → lower (name s) ≠ lower (strip "Dee")).
  { intros s Hs. unfold class_of_three in Hs.
    repeat (apply elem_of_cons in Hs as [->|Hs]; [discriminate|]).
    by apply elem_of_nil in Hs. }
  assert (Hsame : lower (strip "dee") = lower (strip "Dee")) by reflexivity.
  assert (He : Forall (λ entry, ¬ is_done entry) ["90"; "x"; "100"]).
  { repeat constructor; unfold is_done; vm_compute; discriminate. }
  assert (Hd : is_done "done") by reflexivity.
  split; [exact Hn|]. split; [exact Hnone|]. split; [exact Hsame|].
  split; [exact He|]. split; [exact Hd|].
  exact (proj1 (add_then_grade class_of_three "Dee" "dee" ["2"] ["90"; "x"; "100"]
                  "done" ["5"] Hn Hnone Hsame He Hd)).
Defined.

Lemma top_performer_is_report_max_witness :
  filter (λ s, grades s ≠ []) class_of_three ≠ []
  ∧ ∃ top,
      top ∈ class_of_three
      ∧ grades top ≠ []
      ∧ stdout (find_top_performer (H := exact) class_of_three [])
        = [Print ("The student with the highest average is " ++ name top
                  ++ " with a grade of " ++ fmt1 (mean (grades top)) ++ ".")]
      ∧ Print ("Max Average: " ++ fmt1 (mean (grades top)))
          ∈ stdout (show_report (H := exact) class_of_three []).
Proof.
  assert (H : filter (λ s, grades s ≠ []) class_of_three ≠ []) by discriminate.
  split; [exact H|].
  exact (top_performer_is_report_max (H := exact) class_of_three [] [] H).
Defined.

End GradeAnalyzerFacts.

(** ** Properties of the book collection API *)

Module BookApiFacts.
Import BookApi.

Local Open Scope string_scope.
Local Open Scope Z_scope.
Local Arguments String.append : simpl nomatch.

Lemma from_attributes_row i r : row_of (from_attributes (i, r)) = r.
Proof. by destruct r. Qed.

Lemma elem_of_query db b : b ∈ query db ↔ db !! id b = Some (row_of b).
Proof.
  unfold query. rewrite list_elem_of_fmap. split.
  - intros [[i r] [-> Hin]].
    rewrite merge_sort_Permutation in Hin.
    apply elem_of_map_to_list in Hin.
    by rewrite from_attributes_row.
  - intros Hb. exists (id b, row_of b). split; [by destruct b|].
    rewrite merge_sort_Permutation. by apply elem_of_map_to_list.
Qed.

Lemma NoDup_query db : NoDup (id <$> query db).
Proof.
  unfold query. rewrite <- list_fmap_compose.
  replace (id ∘ from_attributes) with (@fst Z BookDB) by done.
  rewrite merge_sort_Permutation. apply NoDup_fst_map_to_list.
Qed.

Lemma next_rowid_above (db : table) i : is_Some (db !! i) → i < next_rowid db.
Proof.
  intros [r Hr]. apply elem_of_map_to_list in Hr.
  assert (Hin : i ∈ (map_to_list db).*1).
  { apply list_elem_of_fmap. by exists (i, r). }
  unfold next_rowid. destruct ((map_to_list db).*1) as [|k ks]; [by apply elem_of_nil in Hin|].
  assert (Hmax : ∀ (l : list Z) k0 j, j ∈ k0 :: l → j ≤ foldr Z.max k0 l).
  { induction l as [|x l IH]; intros k0 j Hj; simpl.
    - apply list_elem_of_singleton in Hj. lia.
    - apply elem_of_cons in Hj as [->|Hj].
      + specialize (IH k0 k0 ltac:(left)). lia.
      + apply elem_of_cons in Hj as [->|Hj]; [lia|].
        specialize (IH k0 j ltac:(by right)). lia. }
  specialize (Hmax ks k i Hin). lia.
Qed.

Lemma next_rowid_fresh (db : table) : db !! next_rowid db = None.
Proof.
  destruct (db !! next_rowid db) as [r|] eqn:E; [|done].
  assert (next_rowid db < next_rowid db) by (apply next_rowid_above; eauto).
  lia.
Qed.


Lemma foldr_max_elem (l : list Z) k : foldr Z.max k l ∈ k :: l.
Proof.
  induction l as [|x l IH]; simpl; [by left|].
  destruct (Z.max_spec x (foldr Z.max k l)) as [[_ ->]|[_ ->]].
  - apply elem_of_cons in IH as [->|IH]; [by left|by do 2 right].
  - right. by left.
Qed.

(** The id of the next row: 1 in an empty table, and otherwise one more
    than the largest id stored. *)
Lemma next_rowid_largest (db : table) :
  (db = ∅ → next_rowid db = 1)
  ∧ (db ≠ ∅ →
     ∃ m, is_Some (db !! m)
          ∧ (∀ j, is_Some (db !! j) → j ≤ m)
          ∧ next_rowid db = m + 1).
Proof.
  split.
  - intros ->. unfold next_rowid. by rewrite map_to_list_empty.
  - intros Hne.
    assert (Hkeys : ∀ j, j ∈ (map_to_list db).*1 → is_Some (db !! j)).
    { intros j ([j' r] & -> & Hin%elem_of_map_to_list)%list_elem_of_fmap. eauto. }
    pose proof (next_rowid_above db) as Habove. unfold next_rowid in *.
    destruct ((map_to_list db).*1) as [|k ks] eqn:Hl.
    + exfalso. apply Hne. apply map_to_list_empty_iff.
      by apply fmap_nil_inv in Hl.
    + exists (foldr Z.max k ks). split; [apply Hkeys, foldr_max_elem|].
      split; [|lia]. intros j Hj. specialize (Habove j Hj). lia.
Qed.

(** *** [LIKE] and [contains] *)

Lemma like_percent_unfold p s :
  like (String "%" p) s
  = like p s || match s with
                | EmptyString => false
                | String _ s' => like (String "%" p) s'
                end.
Proof. by destruct s. Qed.

Lemma like_other_unfold c p s :
  Ascii.eqb c "%" = false →
  like (String c p) s
  = match s with
    | EmptyString => false
    | String d s' =>
        (Ascii.eqb c "_" || Ascii.eqb (ascii_lower c) (ascii_lower d)) && like p s'
    end.
Proof. intros Hc. simpl. by rewrite Hc. Qed.

Lemma like_percent p s :
  like (String "%" p) s = true ↔ ∃ pre rest, s = pre ++ rest ∧ like p rest = true.
Proof.
  induction s as [|d s IH]; rewrite like_percent_unfold.
  - rewrite orb_false_r. split.
    + intros H. by exists "", "".
    + intros (pre & rest & Hs & H). by destruct pre, rest.
  - rewrite orb_true_iff, IH. split.
    + intros [H|(pre & rest & -> & H)].
      * by exists "", (String d s).
      * by exists (String d pre), rest.
    + intros (pre & rest & Hs & H). destruct pre as [|e pre]; simpl in Hs.
      * left. by subst rest.
      * right. injection Hs as -> ->. by exists pre, rest.
Qed.

Lemma like_all s : like "%" s = true.
Proof. apply like_percent. exists s, "". split; [|done]. induction s; simpl; congruence. Qed.

(** A term that occurs in the column as it is written matches, whatever
    characters it is made of. *)
Lemma like_literal t p post :
  like p post = true → like (t ++ p) (t ++ post) = true.
Proof.
  intros Hp. induction t as [|c t IH]; simpl String.append; [done|].
  destruct (Ascii.eqb c "%") eqn:Hc.
  - apply Ascii.eqb_eq in Hc as ->. apply like_percent.
    exists (String "%" ""), (t ++ post). by split.
  - rewrite like_other_unfold by done. rewrite IH, Ascii.eqb_refl.
    by rewrite orb_true_r.
Qed.

Lemma contains_literal pre t post : contains (pre ++ t ++ post) t = true.
Proof.
  unfold contains. apply like_percent. exists pre, (t ++ post). split; [done|].
  apply like_literal, like_all.
Qed.

Lemma contains_empty column : contains column "" = true.
Proof.
  unfold contains. apply like_percent. exists column, "". split; [|done].
  induction column; simpl; congruence.
Qed.

Lemma like_plain t p s :
  plain t = true →
  like (t ++ p) s = true
  ↔ ∃ mid rest, s = mid ++ rest ∧ lower mid = lower t ∧ like p rest = true.
Proof.
  revert s. induction t as [|c t IH]; intros s Ht; simpl String.append.
  - split.
    + intros H. by exists "", s.
    + intros (mid & rest & -> & Hm & H). by destruct mid.
  - simpl in Ht. apply andb_true_iff in Ht as [Hc Ht].
    apply andb_true_iff in Hc as [Hc1 Hc2].
    apply negb_true_iff in Hc1, Hc2.
    rewrite like_other_unfold by done. rewrite Hc2. simpl orb.
    destruct s as [|d s].
    + split; [done|]. intros (mid & rest & Hs & Hm & _). by destruct mid.
    + rewrite andb_true_iff, Ascii.eqb_eq, (IH s Ht). split.
      * intros (Hcd & mid & rest & -> & Hm & H).
        exists (String d mid), rest. simpl. by rewrite Hm, Hcd.
      * intros (mid & rest & Hs & Hm & H). destruct mid as [|e mid]; [done|].
        simpl in Hs, Hm. injection Hs as -> ->. injection Hm as He Hm.
        split; [done|]. by exists mid, rest.
Qed.

(** For a term without wildcards, [contains] is substring containment up
    to the case of ASCII letters. *)
Lemma contains_plain column t :
  plain t = true →
  contains column t = true
  ↔ ∃ pre mid post, column = pre ++ mid ++ post ∧ lower mid = lower t.
Proof.
  intros Ht. unfold contains. simpl String.append. rewrite like_percent. split.
  - intros (pre & rest & -> & H). apply like_plain in H as (mid & post & -> & Hm & _); [|done].
    by exists pre, mid, post.
  - intros (pre & mid & post & -> & Hm). exists pre, (mid ++ post). split; [done|].
    apply like_plain; [done|]. exists mid, post. split; [done|]. split; [done|].
    apply like_all.
Qed.

Lemma prefix_app t s : String.prefix t s = true ↔ ∃ post, s = t ++ post.
Proof.
  revert s. induction t as [|c t IH]; intros [|d s]; simpl.
  - split; [|done]. intros _. by exists "".
  - split; [|done]. intros _. by exists (String d s).
  - split; [done|]. by intros [post H].
  - destruct (ascii_dec c d) as [->|Hne].
    + rewrite IH. split; intros [post H]; exists post; congruence.
    + split; [done|]. intros [post H]. congruence.
Qed.

Lemma occurs_unfold t s :
  occurs t s
  = String.prefix t s || match s with
                         | EmptyString => false
                         | String _ s' => occurs t s'
                         end.
Proof. by destruct s. Qed.

Lemma occurs_app t s : occurs t s = true ↔ ∃ pre post, s = pre ++ t ++ post.
Proof.
  induction s as [|d s IH]; rewrite occurs_unfold, orb_true_iff, prefix_app.
  - split.
    + intros [[post H]|H]; [|done]. by exists "", post.
    + intros (pre & post & H). left. destruct pre; [by exists post|done].
  - rewrite IH. split.
    + intros [[post H]|(pre & post & ->)]; [by exists "", post|].
      by exists (String d pre), post.
    + intros (pre & post & H). destruct pre as [|e pre]; simpl in H.
      * left. by exists post.
      * right. injection H as -> ->. by exists pre, post.
Qed.

(** Every book the search of the specification selects by a term, the
    search of the program selects too. *)
Lemma occurs_contains t column : occurs t column = true → contains column t = true.
Proof. intros (pre & post & ->)%occurs_app. apply contains_literal. Qed.


(** *** The endpoints *)

Lemma NoDup_search title_q author_q year_q db :
  NoDup (search_books title_q author_q year_q db).
Proof.
  assert (Hq : NoDup (query db)) by (eapply NoDup_fmap_1, NoDup_query).
  unfold search_books.
  destruct title_q as [t|], author_q as [a|], year_q as [y|];
    repeat match goal with |- context [if ?c then _ else _] => destruct c end;
    repeat apply NoDup_filter; done.
Qed.

Lemma update_book_found db book_id u row :
  db !! book_id = Some row →
  ∃ row',
    update_book book_id u db = (inr (from_attributes (book_id, row')), <[book_id := row']> db)
    ∧ db_title row' = default (db_title row) (bu_title u)
    ∧ db_author row' = default (db_author row) (bu_author u)
    ∧ db_year row' = match bu_year u with Some y => Some y | None => db_year row end.
Proof.
  intros Hrow. unfold update_book. rewrite Hrow.
  eexists. split; [reflexivity|].
  destruct u as [[t|] [a|] [y|]]; done.
Qed.

Lemma update_book_dom db book_id u i :
  is_Some ((update_book book_id u db).2 !! i) ↔ is_Some (db !! i).
Proof.
  unfold update_book. destruct (db !! book_id) as [row|] eqn:E; simpl; [|done].
  destruct (decide (book_id = i)) as [->|Hne].
  - rewrite lookup_insert_eq, E. split; eauto.
  - by rewrite lookup_insert_ne.
Qed.

Lemma serve_keeps_absent (d : table) r i :
  d !! i = None → assigned d r ≠ Some i → serve d r !! i = None.
Proof.
  intros Hi Hr. destruct r as [book|j u|j]; simpl in *.
  - rewrite lookup_insert_ne; [done|]. congruence.
  - apply eq_None_not_Some. rewrite update_book_dom. by rewrite Hi; intros [].
  - unfold delete_book. destruct (d !! j); simpl; [|done].
    destruct (decide (j = i)) as [->|Hne]; [apply lookup_delete_eq|].
    by rewrite lookup_delete_ne.
Qed.

Lemma serve_all_keeps_absent rs (d : table) i :
  d !! i = None → i ∉ assigned_all rs d → serve_all rs d !! i = None.
Proof.
  revert d. induction rs as [|r rs IH]; intros d Hi Hrs; simpl in *; [done|].
  apply IH.
  - apply serve_keeps_absent; [done|]. intros Hr. rewrite Hr in Hrs.
    apply Hrs. by left.
  - destruct (assigned d r); [|done]. intros Hin. apply Hrs. by right.
Qed.

Lemma update_book_absent (db : table) book_id u :
  db !! book_id = None → update_book book_id u db = (inl not_found, db).
Proof. intros Hid. unfold update_book. by rewrite Hid. Qed.

Lemma delete_book_absent (db : table) book_id :
  db !! book_id = None → delete_book book_id db = (inl not_found, db).
Proof. intros Hid. unfold delete_book. by rewrite Hid. Qed.

Lemma absent_not_listed (db : table) i : db !! i = None → i ∉ (id <$> get_all_books db).
Proof.
  intros Hi (b & -> & Hb%elem_of_query)%list_elem_of_fmap. congruence.
Qed.


(** *** Search *)

(** C1 (as amended).  The search returns, without repetition, exactly the
    listed books that satisfy every filter supplied, where a title (author)
    filter is the [LIKE] containment of the engine and a year filter other
    than 0 is equality; without filters it returns the full collection.
    For a term without [%] and [_] the containment is that of a substring
    up to the case of ASCII letters; a term that occurs in the column as
    it is written always matches. *)
Theorem search_books_like (db : table) (title_q author_q : option string) (year_q : option Z) :
  year_q ≠ Some 0 →
  (∀ b, b ∈ search_books title_q author_q year_q db
        ↔ b ∈ get_all_books db
          ∧ (∀ t, title_q = Some t → contains (title b) t = true)
          ∧ (∀ a, author_q = Some a → contains (author b) a = true)
          ∧ (∀ y, year_q = Some y → year b = Some y))
  ∧ NoDup (search_books title_q author_q year_q db)
  ∧ search_books None None None db = get_all_books db
  ∧ (∀ column t, plain t = true →
       contains column t = true
       ↔ ∃ pre mid post, column = (pre ++ mid ++ post)%string ∧ lower mid = lower t)
  ∧ (∀ column t, occurs t column = true → contains column t = true).
Proof.
  intros Hyear.
  split; [|split; [apply NoDup_search|split; [done|split; [apply contains_plain|]]]];
    [|intros column t; apply occurs_contains].
  intros b. unfold search_books, get_all_books.
  assert (Ht : ∀ q : list BookResponse, b ∈ match title_q with
                        | Some t => if truthy_str t then filter (λ b, contains (title b) t) q else q
                        | None => q
                        end
                    ↔ b ∈ q ∧ ∀ t, title_q = Some t → contains (title b) t = true).
  { intros q. destruct title_q as [[|c t]|]; simpl.
    - split; [|tauto]. intros Hb. split; [done|]. intros t [= <-]. apply contains_empty.
    - rewrite list_elem_of_filter, Is_true_true. split.
      + intros [H Hb]. split; [done|]. by intros t' [= <-].
      + intros [Hb H]. split; [|done]. by apply H.
    - split; [|tauto]. intros Hb. by split. }
  assert (Ha : ∀ q : list BookResponse, b ∈ match author_q with
                        | Some a => if truthy_str a then filter (λ b, contains (author b) a) q else q
                        | None => q
                        end
                    ↔ b ∈ q ∧ ∀ a, author_q = Some a → contains (author b) a = true).
  { intros q. destruct author_q as [[|c a]|]; simpl.
    - split; [|tauto]. intros Hb. split; [done|]. intros a [= <-]. apply contains_empty.
    - rewrite list_elem_of_filter, Is_true_true. split.
      + intros [H Hb]. split; [done|]. by intros a' [= <-].
      + intros [Hb H]. split; [|done]. by apply H.
    - split; [|tauto]. intros Hb. by split. }
  assert (Hy : ∀ q : list BookResponse, b ∈ match year_q with
                        | Some y => if truthy_int y then filter (λ b, sql_eq (year b) y) q else q
                        | None => q
                        end
                    ↔ b ∈ q ∧ ∀ y, year_q = Some y → year b = Some y).
  { intros q. destruct year_q as [y|]; simpl.
    - assert (truthy_int y = true) as ->.
      { unfold truthy_int. apply negb_true_iff, Z.eqb_neq. congruence. }
      rewrite list_elem_of_filter. unfold sql_eq. split.
      + intros [H Hb]. split; [done|]. intros y' [= <-].
        destruct (year b) as [v|]; [|done]. apply Is_true_true, Z.eqb_eq in H. by subst.
      + intros [Hb H]. split; [|done]. rewrite (H y eq_refl). apply Is_true_true, Z.eqb_refl.
    - split; [|tauto]. intros Hb. by split. }
  rewrite Hy, Ha, Ht. tauto.
Qed.

Lemma search_books_like_witness :
  Some 1965 ≠ Some 0
  ∧ ({| id := 1; title := "Dune"; author := "Herbert"; year := Some 1965 |}
       ∈ search_books (Some "UN") (Some "herb") (Some 1965) shelf
     ↔ {| id := 1; title := "Dune"; author := "Herbert"; year := Some 1965 |}
         ∈ get_all_books shelf
       ∧ (∀ t, Some "UN" = Some t → contains "Dune" t = true)
       ∧ (∀ a, Some "herb" = Some a → contains "Herbert" a = true)
       ∧ (∀ y, Some 1965 = Some y → Some 1965 = Some y)).
Proof.
  assert (H : Some 1965 ≠ Some 0) by discriminate.
  split; [exact H|].
  exact (proj1 (search_books_like shelf (Some "UN") (Some "herb") (Some 1965) H)
           {| id := 1; title := "Dune"; author := "Herbert"; year := Some 1965 |}).
Defined.

(** C1 (as stated) fails: a title filter written in another case selects
    the book, which case-sensitive containment leaves out. *)
Lemma search_books_ignores_case :
  search_books (Some "dune") None None shelf
  = [{| id := 1; title := "Dune"; author := "Herbert"; year := Some 1965 |}]
  ∧ search_as_specified (Some "dune") None None (get_all_books shelf) = [].
Proof. split; vm_compute; reflexivity. Qed.

(** The wildcards of [LIKE] are live in a search term. *)
Example search_books_wildcard :
  search_books (Some "E__a") None None shelf
  = [{| id := 2; title := "Emma"; author := "Austen"; year := Some 1815 |}]
  ∧ search_as_specified (Some "E__a") None None (get_all_books shelf) = [].
Proof. split; vm_compute; reflexivity. Qed.

(** [if year:] skips the filter for year 0: the search returns books of
    other years too. *)
Example search_books_year_zero :
  search_books None None (Some 0) shelf = get_all_books shelf
  ∧ search_as_specified None None (Some 0) (get_all_books shelf) = [].
Proof. split; vm_compute; reflexivity. Qed.

(** The searches of the specification's examples. *)
Example search_books_un :
  search_books (Some "un") None None (create_book dune ∅).2
  = [{| id := 1; title := "Dune"; author := "Herbert"; year := Some 1965 |}]
  ∧ search_books None None (Some 1999) (create_book dune ∅).2 = [].
Proof. split; vm_compute; reflexivity. Qed.


(** *** Creation *)

(** C2 (as amended).  A body without title or without author (left out or
    null) is answered with the validation error and the table stays as it
    was.  Any other body, an empty title or author included, is answered
    with status 201 and the created record: its id is held by no row
    before, its fields are the ones given, and it is the row stored under
    that id and listed from then on. *)
Theorem post_books_required (b : body) (db : table) :
  match j_title b, j_author b with
  | Given t, Given a =>
      ∃ created,
        post_books b db = (Success 201 created, <[id created := row_of created]> db)
        ∧ db !! id created = None
        ∧ title created = t
        ∧ author created = a
        ∧ year created = optional (j_year b)
        ∧ created ∈ get_all_books (post_books b db).2
        ∧ (∀ i, i ≠ id created → (post_books b db).2 !! i = db !! i)
  | _, _ => post_books b db = (ValidationError, db)
  end.
Proof.
  destruct b as [[| |t] [| |a] y]; simpl; try done.
  exists (from_attributes
            (next_rowid db,
             {| db_title := t; db_author := a; db_year := optional y |})).
  split; [reflexivity|]. simpl.
  split; [apply next_rowid_fresh|]. repeat (split; [done|]).
  split.
  - apply elem_of_query. simpl. apply lookup_insert_eq.
  - intros i Hi. by rewrite lookup_insert_ne.
Qed.

(** C2 (as stated) fails: a body with an empty title and an empty author
    is accepted and its row is stored. *)
Lemma post_books_empty_title :
  post_books {| j_title := Given ""; j_author := Given ""; j_year := Missing |} ∅
  = (Success 201 {| id := 1; title := ""; author := ""; year := None |},
     {[ 1 := {| db_title := ""; db_author := ""; db_year := None |} ]}).
Proof. reflexivity. Qed.

(** The creation of the specification's example. *)
Example post_books_dune :
  get_all_books
    (post_books {| j_title := Given "Dune"; j_author := Given "Herbert";
                   j_year := Given 1965 |} ∅).2
  = [{| id := 1; title := "Dune"; author := "Herbert"; year := Some 1965 |}].
Proof. vm_compute. reflexivity. Qed.

(** *** Update and deletion *)

(** C7.  An update and a deletion that address an id held by no row are
    answered with the error of status 404, and the table stays as it
    was. *)
Theorem absent_id_not_found (db : table) (book_id : Z) (b : body) :
  db !! book_id = None →
  put_books book_id b db = (HTTPError not_found, db)
  ∧ delete_books book_id db = (HTTPError not_found, db)
  ∧ (∀ u, update_book book_id u db = (inl not_found, db))
  ∧ delete_book book_id db = (inl not_found, db)
  ∧ status_code not_found = 404.
Proof.
  intros Hid. unfold put_books, delete_books.
  rewrite update_book_absent, delete_book_absent by done.
  repeat split. intros u. by apply update_book_absent.
Qed.

Lemma absent_id_not_found_witness :
  shelf !! 7 = None
  ∧ put_books 7 {| j_title := Given "It"; j_author := Missing; j_year := Null |} shelf
    = (HTTPError not_found, shelf)
  ∧ delete_books 7 shelf = (HTTPError not_found, shelf).
Proof.
  assert (H : shelf !! 7 = None) by reflexivity.
  split; [exact H|].
  pose proof (absent_id_not_found shelf 7
                {| j_title := Given "It"; j_author := Missing; j_year := Null |} H) as P.
  exact (conj (proj1 P) (proj1 (proj2 P))).
Defined.

(** C8.  An update of a stored book is answered with status 200 and the
    updated record, which is the row stored under the same id afterwards.
    A field the body leaves out keeps its value, a field the body gives
    takes the value given, and a field whose value changes is one the body
    gives; the id and every other row stay as they were. *)
Theorem put_books_partial (db : table) (book_id : Z) (b : body) (row : BookDB) :
  db !! book_id = Some row →
  ∃ updated,
    put_books book_id b db = (Success 200 updated, <[book_id := row_of updated]> db)
    ∧ id updated = book_id
    ∧ (j_title b = Missing → title updated = db_title row)
    ∧ (j_author b = Missing → author updated = db_author row)
    ∧ (j_year b = Missing → year updated = db_year row)
    ∧ (∀ t, j_title b = Given t → title updated = t)
    ∧ (∀ a, j_author b = Given a → author updated = a)
    ∧ (∀ y, j_year b = Given y → year updated = Some y)
    ∧ (title updated ≠ db_title row → ∃ t, j_title b = Given t)
    ∧ (author updated ≠ db_author row → ∃ a, j_author b = Given a)
    ∧ (year updated ≠ db_year row → ∃ y, j_year b = Given y)
    ∧ (∀ i, i ≠ book_id → (put_books book_id b db).2 !! i = db !! i)
    ∧ updated ∈ get_all_books (put_books book_id b db).2.
Proof.
  intros Hrow.
  destruct (update_book_found db book_id (validate_BookUpdate b) row Hrow)
    as (row' & Hup & Ht & Ha & Hy).
  exists (from_attributes (book_id, row')).
  unfold put_books. rewrite Hup. rewrite from_attributes_row. simpl.
  split; [done|]. split; [done|].
  rewrite Ht, Ha, Hy. destruct b as [jt ja jy]; simpl.
  split_and!.
  - by intros ->.
  - by intros ->.
  - by intros ->.
  - by intros t ->.
  - by intros a ->.
  - by intros y ->.
  - destruct jt; simpl; eauto; done.
  - destruct ja; simpl; eauto; done.
  - destruct jy; simpl; eauto; done.
  - intros i Hi. by rewrite lookup_insert_ne.
  - apply elem_of_query. simpl. rewrite from_attributes_row. apply lookup_insert_eq.
Qed.

Lemma put_books_partial_witness :
  shelf !! 1 = Some {| db_title := "Dune"; db_author := "Herbert"; db_year := Some 1965 |}
  ∧ ∃ updated,
      put_books 1 {| j_title := Missing; j_author := Missing; j_year := Given 1984 |} shelf
      = (Success 200 updated, <[1 := row_of updated]> shelf)
      ∧ id updated = 1
      ∧ title updated = "Dune"
      ∧ author updated = "Herbert"
      ∧ year updated = Some 1984.
Proof.
  assert (H : shelf !! 1
              = Some {| db_title := "Dune"; db_author := "Herbert"; db_year := Some 1965 |})
    by reflexivity.
  split; [exact H|].
  destruct (put_books_partial shelf 1
              {| j_title := Missing; j_author := Missing; j_year := Given 1984 |} _ H)
    as (updated & Hput & Hid & Ht & Ha & _ & _ & _ & Hy & _).
  exists updated.
  exact (conj Hput (conj Hid (conj (Ht eq_refl) (conj (Ha eq_refl) (Hy 1984 eq_refl))))).
Defined.


(** C10.  An update whose body gives year as null is the update whose
    body leaves year out: the stored year stays.  No body makes an update
    take the year of a book away once it has one. *)
Theorem put_books_null_year (db : table) (book_id : Z) (b : body) (row : BookDB) :
  db !! book_id = Some row →
  (j_year b = Null →
     put_books book_id b db
     = put_books book_id
         {| j_title := j_title b; j_author := j_author b; j_year := Missing |} db
     ∧ ∃ updated db',
         put_books book_id b db = (Success 200 updated, db')
         ∧ year updated = db_year row
         ∧ db_year <$> db' !! book_id = Some (db_year row))
  ∧ (∀ y, db_year row = Some y →
       ∃ updated db' y',
         put_books book_id b db = (Success 200 updated, db')
         ∧ year updated = Some y'
         ∧ db_year <$> db' !! book_id = Some (Some y')).
Proof.
  intros Hrow.
  destruct (update_book_found db book_id (validate_BookUpdate b) row Hrow)
    as (row' & Hup & _ & _ & Hy).
  split.
  - intros Hnull. split.
    + destruct b as [jt ja jy]. simpl in Hnull. by subst jy.
    + exists (from_attributes (book_id, row')), (<[book_id := row']> db).
      unfold put_books. rewrite Hup. split; [done|]. simpl.
      rewrite lookup_insert_eq. simpl. rewrite Hy.
      destruct b as [jt ja jy]. simpl in *. by subst jy.
  - intros y Hrowy.
    exists (from_attributes (book_id, row')), (<[book_id := row']> db).
    unfold put_books. rewrite Hup. simpl. rewrite lookup_insert_eq. simpl.
    rewrite Hy, Hrowy. destruct (bu_year (validate_BookUpdate b)) as [y'|]; eauto.
Qed.

Lemma put_books_null_year_witness :
  shelf !! 1 = Some {| db_title := "Dune"; db_author := "Herbert"; db_year := Some 1965 |}
  ∧ ∃ updated db',
      put_books 1 {| j_title := Given "Dune II"; j_author := Missing; j_year := Null |} shelf
      = (Success 200 updated, db')
      ∧ year updated = Some 1965
      ∧ db_year <$> db' !! 1 = Some (Some 1965).
Proof.
  assert (H : shelf !! 1
              = Some {| db_title := "Dune"; db_author := "Herbert"; db_year := Some 1965 |})
    by reflexivity.
  split; [exact H|].
  exact (proj2 (proj1 (put_books_null_year shelf 1
                         {| j_title := Given "Dune II"; j_author := Missing; j_year := Null |}
                         _ H) eq_refl)).
Defined.

(** *** Ids *)

(** C9 (as amended).  A deletion of a stored book succeeds; from then on,
    through any requests among which no creation is given the id again,
    the id is not listed and an update or a deletion that addresses it is
    answered with not-found.  Only a creation brings an id into the table:
    it assigns 1 in an empty table and otherwise one more than the largest
    id stored, an id above every id stored at that time. *)
Theorem deleted_id_until_reassigned (db : table) (book_id : Z) :
  is_Some (db !! book_id) →
  (delete_book book_id db).1 = inr "Book deleted successfully"%string
  ∧ (∀ rs,
       book_id ∉ assigned_all rs (delete_book book_id db).2 →
       (book_id ∉ id <$> get_all_books (serve_all rs (delete_book book_id db).2))
       ∧ (∀ u, (update_book book_id u (serve_all rs (delete_book book_id db).2)).1
               = inl not_found)
       ∧ (delete_book book_id (serve_all rs (delete_book book_id db).2)).1
         = inl not_found)
  ∧ (∀ (d : table) r i,
       is_Some (serve d r !! i) → is_Some (d !! i) ∨ assigned d r = Some i)
  ∧ (∀ (d : table) book i, is_Some (d !! i) → i < id (create_book book d).1)
  ∧ (∀ book, id (create_book book ∅).1 = 1)
  ∧ (∀ (d : table) book,
       d ≠ ∅ →
       ∃ m, is_Some (d !! m)
            ∧ (∀ j, is_Some (d !! j) → j ≤ m)
            ∧ id (create_book book d).1 = m + 1).
Proof.
  intros [row Hrow]. split_and!.
  - unfold delete_book. by rewrite Hrow.
  - intros rs Hrs.
    assert (Hgone : serve_all rs (delete_book book_id db).2 !! book_id = None).
    { apply serve_all_keeps_absent; [|done].
      unfold delete_book. rewrite Hrow. apply lookup_delete_eq. }
    split; [by apply absent_not_listed|]. split.
    + intros u. by rewrite update_book_absent.
    + by rewrite delete_book_absent.
  - intros d r i Hi.
    destruct (d !! i) as [x|] eqn:Hd; [left; eauto|right].
    destruct (decide (assigned d r = Some i)) as [|Hne]; [done|].
    rewrite (serve_keeps_absent d r i Hd Hne) in Hi. by destruct Hi.
  - intros d book i Hi. simpl. by apply next_rowid_above.
  - intros book. simpl. by apply next_rowid_largest.
  - intros d book Hd. simpl. by apply next_rowid_largest.
Qed.

Lemma deleted_id_until_reassigned_witness :
  is_Some (shelf !! 1)
  ∧ 1 ∉ (id <$> get_all_books
                  (serve_all [Create ulysses; Delete 2] (delete_book 1 shelf).2)).
Proof.
  assert (H : is_Some (shelf !! 1)) by (eexists; reflexivity).
  split; [exact H|].
  assert (Hrs : 1 ∉ assigned_all [Create ulysses; Delete 2] (delete_book 1 shelf).2).
  { vm_compute. intros Hin. inversion Hin as [|? ? ? Hin']; subst. inversion Hin'. }
  exact (proj1 (proj1 (proj2 (deleted_id_until_reassigned shelf 1 H)) _ Hrs)).
Defined.

(** C9 (as stated) fails: the id of a deleted book is assigned again.
    After books 1 and 2 are created and book 2 is deleted, the next
    creation receives id 2, and id 2 is listed and updated again. *)
Lemma deleted_id_assigned_again :
  id (create_book emma (create_book dune ∅).2).1 = 2
  ∧ delete_book 2 shelf = (inr "Book deleted successfully"%string, (create_book dune ∅).2)
  ∧ id (create_book ulysses (delete_book 2 shelf).2).1 = 2
  ∧ get_all_books (create_book ulysses (delete_book 2 shelf).2).2
    = [{| id := 1; title := "Dune"; author := "Herbert"; year := Some 1965 |};
       {| id := 2; title := "Ulysses"; author := "Joyce"; year := None |}]
  ∧ (update_book 2 {| bu_title := None; bu_author := None; bu_year := Some 1922 |}
       (create_book ulysses (delete_book 2 shelf).2).2).1
    = inr {| id := 2; title := "Ulysses"; author := "Joyce"; year := Some 1922 |}.
Proof. repeat split; vm_compute; reflexivity. Qed.

(** *** The listing *)

Global Instance id_le_trans : Transitive id_le.
Proof. intros x y z. unfold id_le. lia. Qed.

Global Instance id_le_total : Total id_le.
Proof. intros x y. unfold id_le. lia. Qed.

Lemma rows_sorted db : Sorted id_le (rows db).
Proof. apply Sorted_merge_sort. apply _. Qed.

Lemma rows_perm db : rows db ≡ₚ map_to_list db.
Proof. apply merge_sort_Permutation. Qed.

Lemma rows_unique (db : table) l :
  Sorted id_le l → l ≡ₚ map_to_list db → rows db = l.
Proof.
  intros Hs Hp. apply (Sorted_unique_strong id_le); [|apply rows_sorted|done|].
  - intros [i1 r1] [i2 r2] H1 H2 Hle1 Hle2. unfold id_le in *. simpl in *.
    assert (i1 = i2) as -> by lia.
    rewrite rows_perm in H1. rewrite Hp in H2.
    apply elem_of_map_to_list in H1, H2. congruence.
  - by rewrite rows_perm.
Qed.

Lemma query_rows db : query db = from_attributes <$> rows db.
Proof. done. Qed.

Lemma rows_keys (db : table) i r : (i, r) ∈ rows db ↔ db !! i = Some r.
Proof. unfold rows. rewrite merge_sort_Permutation. apply elem_of_map_to_list. Qed.

Lemma rows_insert_fresh (db : table) r :
  rows (<[next_rowid db := r]> db) = (rows db ++ [(next_rowid db, r)])%list.
Proof.
  apply rows_unique.
  - apply Sorted_snoc; [apply rows_sorted|].
    assert (Hall : ∀ p, p ∈ rows db → id_le p (next_rowid db, r)).
    { intros [j rj] Hj%rows_keys. unfold id_le. simpl.
      assert (j < next_rowid db) by (apply next_rowid_above; eauto). lia. }
    destruct (rows db) as [|x l _] using rev_ind; [constructor|].
    constructor. apply Hall, elem_of_app. right. by left.
  - rewrite map_to_list_insert by apply next_rowid_fresh.
    rewrite rows_perm. by rewrite Permutation_app_comm.
Qed.

Lemma StronglySorted_filter {A} (R : relation A) (P : A → Prop)
    `{∀ x, Decision (P x)} l :
  StronglySorted R l → StronglySorted R (filter P l).
Proof.
  induction 1 as [|x l Hl IH Hx]; [constructor|].
  rewrite filter_cons. destruct (decide (P x)); [|done].
  constructor; [done|]. apply Forall_forall. intros y [_ Hy]%list_elem_of_filter.
  rewrite Forall_forall in Hx. by apply Hx.
Qed.

Lemma NoDup_rows_keys db : NoDup (rows db).*1.
Proof. unfold rows. rewrite merge_sort_Permutation. apply NoDup_fst_map_to_list. Qed.

Lemma NoDup_rows db : NoDup (rows db).
Proof. eapply NoDup_fmap_1, NoDup_rows_keys. Qed.

Lemma rows_delete (db : table) i :
  rows (delete i db) = filter (λ p, p.1 ≠ i) (rows db).
Proof.
  apply rows_unique.
  - apply StronglySorted_Sorted, StronglySorted_filter, Sorted_StronglySorted;
      [apply _|apply rows_sorted].
  - apply NoDup_Permutation.
    + apply NoDup_filter, NoDup_rows.
    + apply NoDup_map_to_list.
    + intros [j r]. rewrite list_elem_of_filter, rows_keys, elem_of_map_to_list.
      rewrite lookup_delete_Some. simpl. split; intros [? ?]; split; congruence.
Qed.

Lemma rows_update (db : table) i r r' :
  db !! i = Some r →
  rows (<[i := r']> db) = (λ p, if decide (p.1 = i) then (i, r') else p) <$> rows db.
Proof.
  intros Hi.
  assert (Hfst : ((λ p : Z * BookDB, if decide (p.1 = i) then (i, r') else p) <$> rows db).*1
                 = (rows db).*1).
  { rewrite <- list_fmap_compose. apply list_fmap_ext. intros k [j x] _. simpl.
    by destruct (decide (j = i)) as [->|]. }
  apply rows_unique.
  - apply (Sorted_fmap _ id_le id_le); [|apply rows_sorted].
    intros [j1 x1] [j2 x2]. unfold id_le. simpl.
    by destruct (decide (j1 = i)) as [->|], (decide (j2 = i)) as [->|].
  - apply NoDup_Permutation.
    + eapply NoDup_fmap_1. rewrite Hfst. apply NoDup_rows_keys.
    + apply NoDup_map_to_list.
    + intros [j x]. rewrite list_elem_of_fmap, elem_of_map_to_list. split.
      * intros ([j' x'] & Heq & Hin%rows_keys). simpl in Heq.
        destruct (decide (j' = i)) as [->|Hne]; simplify_eq.
        -- apply lookup_insert_eq.
        -- by rewrite lookup_insert_ne.
      * intros Hl. destruct (decide (j = i)) as [->|Hne].
        -- rewrite lookup_insert_eq in Hl. simplify_eq.
           exists (i, r). split; [|by apply rows_keys]. simpl. by rewrite decide_True.
        -- rewrite lookup_insert_ne in Hl by done.
           exists (j, x). split; [|by apply rows_keys]. simpl. by rewrite decide_False.
Qed.

Lemma filter_fmap_comm {A B} (f : A → B) (P : B → Prop) `{∀ x, Decision (P x)} (l : list A) :
  filter P (f <$> l) = f <$> filter (λ x, P (f x)) l.
Proof.
  induction l as [|x l IH]; [done|]. rewrite fmap_cons, !filter_cons.
  destruct (decide (P (f x))); [rewrite fmap_cons|]; by rewrite IH.
Qed.

Lemma Sorted_le_lt (l : list Z) : Sorted Z.le l → NoDup l → Sorted Z.lt l.
Proof.
  intros Hs%Sorted_StronglySorted Hn; [|apply _]. apply StronglySorted_Sorted.
  induction Hs as [|x l Hl IH Hx]; [constructor|].
  apply NoDup_cons in Hn as [Hx' Hn]. constructor; [by apply IH|].
  rewrite Forall_forall in Hx |- *. intros y Hy. specialize (Hx y Hy).
  assert (x ≠ y) by (by intros ->). lia.
Qed.

(** Listing: every stored row once, in strictly ascending order of id. *)
(** X8.  The listing holds every stored row once, in strictly ascending
    order of id, and nothing else: it has as many entries as the table has
    rows. *)
Theorem get_all_books_ascending (db : table) :
  Sorted Z.lt (id <$> get_all_books db)
  ∧ (∀ b, b ∈ get_all_books db ↔ db !! id b = Some (row_of b))
  ∧ length (get_all_books db) = size db.
Proof.
  split_and!.
  - apply Sorted_le_lt; [|apply NoDup_query].
    unfold get_all_books. rewrite query_rows, <- list_fmap_compose.
    apply (Sorted_fmap _ id_le); [|apply rows_sorted]. by intros [? ?] [? ?].
  - intros b. apply elem_of_query.
  - unfold get_all_books. rewrite query_rows, length_fmap.
    unfold rows. rewrite merge_sort_Permutation. apply length_map_to_list.
Qed.

(** X9.  A creation adds the created record at the end of the listing
    and leaves the entries before it as they were. *)
Theorem create_book_listed_last (book : BookCreate) (db : table) :
  get_all_books (create_book book db).2
  = (get_all_books db ++ [(create_book book db).1])%list.
Proof.
  unfold get_all_books, create_book. simpl. rewrite !query_rows.
  by rewrite rows_insert_fresh, fmap_app.
Qed.

Lemma delete_book_table (db : table) i : (delete_book i db).2 = delete i db.
Proof.
  unfold delete_book. destruct (db !! i) eqn:Hi; [done|]. simpl.
  by rewrite delete_id.
Qed.

(** X10.  A deletion takes the entry with the id addressed out of the
    listing and leaves every other entry, in order; when no row has the
    id, the listing stays as it was. *)
Theorem delete_book_listing (book_id : Z) (db : table) :
  get_all_books (delete_book book_id db).2
  = filter (λ b, id b ≠ book_id) (get_all_books db).
Proof.
  rewrite delete_book_table. unfold get_all_books.
  rewrite !query_rows, rows_delete. by rewrite filter_fmap_comm.
Qed.

(** X11.  An update that succeeds puts the record it returns at the
    place of the entry with that id and leaves every other entry of the
    listing as it was; an update that fails leaves the table as it
    was. *)
Theorem update_book_listing (book_id : Z) (u : BookUpdate) (db : table) :
  match (update_book book_id u db).1 with
  | inr updated =>
      get_all_books (update_book book_id u db).2
      = (λ b, if decide (id b = book_id) then updated else b) <$> get_all_books db
  | inl _ => (update_book book_id u db).2 = db
  end.
Proof.
  destruct (db !! book_id) as [row|] eqn:Hrow.
  - destruct (update_book_found db book_id u row Hrow) as (row' & -> & _). simpl.
    unfold get_all_books. rewrite !query_rows, (rows_update db book_id row row' Hrow).
    rewrite <- !list_fmap_compose. apply list_fmap_ext. intros k [j x] _. simpl.
    by destruct (decide (j = book_id)) as [->|].
  - by rewrite update_book_absent.
Qed.

(** X12.  Deleting the book a creation has just returned succeeds and
    gives back the table as it was before the creation. *)
Theorem create_then_delete (book : BookCreate) (db : table) :
  delete_book (id (create_book book db).1) (create_book book db).2
  = (inr "Book deleted successfully", db).
Proof.
  unfold create_book, delete_book. simpl. rewrite lookup_insert_eq.
  by rewrite delete_insert_eq, delete_id by apply next_rowid_fresh.
Qed.

Lemma update_book_twice (book_id : Z) (u : BookUpdate) (db : table) :
  update_book book_id u (update_book book_id u db).2 = update_book book_id u db.
Proof.
  destruct (db !! book_id) as [row|] eqn:Hrow.
  - destruct (update_book_found db book_id u row Hrow) as (row1 & -> & Ht & Ha & Hy).
    cbn [snd].
    destruct (update_book_found (<[book_id := row1]> db) book_id u row1
                (lookup_insert_eq _ _ _)) as (row2 & -> & Ht' & Ha' & Hy').
    assert (row2 = row1) as ->.
    { destruct row1, row2, u as [[t|] [a|] [y|]]; simpl in *; congruence. }
    by rewrite insert_insert_eq.
  - rewrite (update_book_absent db) by done. by apply update_book_absent.
Qed.

Lemma update_book_nothing (book_id : Z) (db : table) row :
  db !! book_id = Some row →
  update_book book_id {| bu_title := None; bu_author := None; bu_year := None |} db
  = (inr (from_attributes (book_id, row)), db).
Proof.
  intros Hrow. unfold update_book. rewrite Hrow. simpl. by rewrite insert_id.
Qed.

(** X13.  Sending the same update a second time changes nothing more and
    gets the same answer.  An update whose body gives no field leaves the
    table as it was, and answers with the stored record when the id is
    held. *)
Theorem put_books_idempotent (book_id : Z) (b : body) (db : table) :
  put_books book_id b (put_books book_id b db).2 = put_books book_id b db
  ∧ ((∀ t, j_title b ≠ Given t) → (∀ a, j_author b ≠ Given a) → (∀ y, j_year b ≠ Given y) →
     (put_books book_id b db).2 = db
     ∧ ∀ row, db !! book_id = Some row →
              (put_books book_id b db).1 = Success 200 (from_attributes (book_id, row))).
Proof.
  split.
  - unfold put_books.
    assert (Hsnd : (let (s, db') := update_book book_id (validate_BookUpdate b) db in
                    match s with
                    | inl e => (HTTPError e, db')
                    | inr updated => (Success 200 updated, db')
                    end).2 = (update_book book_id (validate_BookUpdate b) db).2).
    { by destruct (update_book book_id (validate_BookUpdate b) db) as [[e|r] db']. }
    rewrite Hsnd. by rewrite update_book_twice.
  - intros Ht Ha Hy.
    assert (validate_BookUpdate b
            = {| bu_title := None; bu_author := None; bu_year := None |}) as Hv.
    { destruct b as [[| |t] [| |a] [| |y]]; simpl in *; try done;
        first [by destruct (Ht t)|by destruct (Ha a)|by destruct (Hy y)]. }
    unfold put_books. rewrite Hv. destruct (db !! book_id) as [row|] eqn:Hrow.
    + rewrite (update_book_nothing _ _ row Hrow). split; [done|]. by intros ? [= <-].
    + rewrite update_book_absent by done. split; [done|]. by intros.
Qed.

Lemma next_rowid_insert (db : table) r :
  next_rowid (<[next_rowid db := r]> db) = next_rowid db + 1.
Proof.
  destruct (proj2 (next_rowid_largest (<[next_rowid db := r]> db))) as (m & Hm & Hmax & ->).
  { apply insert_non_empty. }
  f_equal. apply Z.le_antisymm.
  - destruct (decide (m = next_rowid db)) as [->|Hne]; [lia|].
    rewrite lookup_insert_ne in Hm by done.
    apply next_rowid_above in Hm. lia.
  - apply Hmax. rewrite lookup_insert_eq. eauto.
Qed.

(** X14.  Two creations in a row receive consecutive ids. *)
Theorem create_book_consecutive (book1 book2 : BookCreate) (db : table) :
  id (create_book book2 (create_book book1 db).2).1 = id (create_book book1 db).1 + 1.
Proof. simpl. apply next_rowid_insert. Qed.

(** *** Ids of a table built from the empty one *)

Lemma serve_ids_bound (d : table) r (n : nat) :
  (∀ i, is_Some (d !! i) → 1 ≤ i ≤ Z.of_nat n) →
  ∀ i, is_Some (serve d r !! i) →
       1 ≤ i ≤ Z.of_nat (n + length (option_list (assigned d r))).
Proof.
  intros Hd i Hi. destruct r as [book|j u|j]; simpl in *.
  - destruct (decide (i = next_rowid d)) as [->|Hne].
    + destruct (decide (d = ∅)) as [->|Hne].
      * rewrite (proj1 (next_rowid_largest ∅) eq_refl). lia.
      * destruct (proj2 (next_rowid_largest d) Hne) as (m & Hm & _ & ->).
        specialize (Hd m Hm). lia.
    + rewrite lookup_insert_ne in Hi by done. specialize (Hd i Hi). lia.
  - apply update_book_dom in Hi. specialize (Hd i Hi). lia.
  - rewrite delete_book_table in Hi.
    assert (is_Some (d !! i)) as Hi'.
    { destruct Hi as [x Hx]. apply lookup_delete_Some in Hx as [_ Hx]. eauto. }
    specialize (Hd i Hi'). lia.
Qed.

Lemma assigned_all_length rs (d : table) r :
  length (assigned_all (r :: rs) d)
  = (length (option_list (assigned d r)) + length (assigned_all rs (serve d r)))%nat.
Proof. simpl. by destruct (assigned d r). Qed.

Lemma serve_all_ids_bound rs (d : table) (n : nat) :
  (∀ i, is_Some (d !! i) → 1 ≤ i ≤ Z.of_nat n) →
  ∀ i, is_Some (serve_all rs d !! i) → 1 ≤ i ≤ Z.of_nat (n + length (assigned_all rs d)).
Proof.
  revert d n. induction rs as [|r rs IH]; intros d n Hd i Hi.
  - simpl in *. specialize (Hd i Hi). lia.
  - rewrite assigned_all_length. 
    change (serve_all (r :: rs) d) with (serve_all rs (serve d r)) in Hi.
    pose proof (IH (serve d r) _ (serve_ids_bound d r n Hd) i Hi). lia.
Qed.

(** X15.  In a table built from the empty one by creations, updates and
    deletions, every id is at least 1 and at most the number of creations
    served. *)
Theorem ids_from_empty (rs : list request) (i : Z) :
  is_Some (serve_all rs ∅ !! i) → 1 ≤ i ≤ Z.of_nat (length (assigned_all rs ∅)).
Proof.
  intros Hi. apply (serve_all_ids_bound rs ∅ 0) in Hi; [lia|].
  intros j [x Hx]. by rewrite lookup_empty in Hx.
Qed.

(** *** Search *)

Lemma sublist_filter_mono {A} (P : A → Prop) `{∀ x, Decision (P x)} (l k : list A) :
  l `sublist_of` k → filter P l `sublist_of` filter P k.
Proof.
  induction 1 as [|x l k _ IH|x l k _ IH]; [done| |]; rewrite !filter_cons.
  - destruct (decide (P x)); [by apply sublist_skip|done].
  - destruct (decide (P x)); [by apply sublist_cons|done].
Qed.

Ltac narrow :=
  repeat first
    [ reflexivity
    | apply sublist_filter_mono
    | apply sublist_filter
    | (etrans; [apply sublist_filter|]) ].

(** X16.  A search returns entries of the listing, in the order of the
    listing, and a filter only narrows: the result with a filter is within
    the result of the same search without it. *)
Theorem search_books_narrows (title_q author_q : option string) (year_q : option Z)
    (db : table) :
  search_books title_q author_q year_q db `sublist_of` get_all_books db
  ∧ search_books title_q author_q year_q db
      `sublist_of` search_books None author_q year_q db
  ∧ search_books title_q author_q year_q db
      `sublist_of` search_books title_q None year_q db
  ∧ search_books title_q author_q year_q db
      `sublist_of` search_books title_q author_q None db.
Proof.
  unfold search_books, get_all_books.
  destruct title_q as [t|]; [destruct (truthy_str t)|];
    (destruct author_q as [a|]; [destruct (truthy_str a)|]);
    (destruct year_q as [y|]; [destruct (truthy_int y)|]);
    split_and!; narrow.
Qed.

Lemma ascii_lower_idemp c : ascii_lower (ascii_lower c) = ascii_lower c.
Proof. destruct c as [[] [] [] [] [] [] [] []]; reflexivity. Qed.

Lemma ascii_lower_percent c : Ascii.eqb (ascii_lower c) "%" = Ascii.eqb c "%".
Proof. destruct c as [[] [] [] [] [] [] [] []]; reflexivity. Qed.

Lemma ascii_lower_underscore c : Ascii.eqb (ascii_lower c) "_" = Ascii.eqb c "_".
Proof. destruct c as [[] [] [] [] [] [] [] []]; reflexivity. Qed.

Lemma like_lower_pattern p s : like (lower p) s = like p s.
Proof.
  revert s. induction p as [|c p IH]; intros s; [done|].
  change (lower (String c p)) with (String (ascii_lower c) (lower p)).
  destruct (Ascii.eqb c "%") eqn:Hc.
  - apply Ascii.eqb_eq in Hc as ->. change (ascii_lower "%") with "%"%char.
    induction s as [|d s IHs];
      rewrite (like_percent_unfold (lower p)), (like_percent_unfold p), IH; [done|].
    by rewrite IHs.
  - rewrite !like_other_unfold by (by rewrite ?ascii_lower_percent).
    destruct s as [|d s]; [done|].
    by rewrite ascii_lower_underscore, ascii_lower_idemp, IH.
Qed.

Lemma like_lower_column p s : like p (lower s) = like p s.
Proof.
  revert s. induction p as [|c p IH]; intros s.
  - by destruct s.
  - destruct (Ascii.eqb c "%") eqn:Hc.
    + apply Ascii.eqb_eq in Hc as ->.
      induction s as [|d s IHs].
      * done.
      * rewrite (like_percent_unfold p (String d s)), <- IHs, <- (IH (String d s)).
        change (lower (String d s)) with (String (ascii_lower d) (lower s)).
        by rewrite (like_percent_unfold p (String (ascii_lower d) (lower s))).
    + destruct s as [|d s]; [done|].
      change (lower (String d s)) with (String (ascii_lower d) (lower s)).
      rewrite !like_other_unfold by done.
      by rewrite ascii_lower_idemp, IH.
Qed.

Lemma lower_app a b : lower (a ++ b) = lower a ++ lower b.
Proof. induction a as [|c a IH]; simpl; [done|]. by rewrite IH. Qed.

Lemma contains_lower column t :
  contains column (lower t) = contains column t
  ∧ contains (lower column) t = contains column t.
Proof.
  unfold contains. split; [|apply like_lower_column].
  rewrite <- (like_lower_pattern ("%" ++ t ++ "%")).
  by rewrite !lower_app.
Qed.

Lemma truthy_str_lower t : truthy_str (lower t) = truthy_str t.
Proof. by destruct t. Qed.

Lemma filter_contains_lower (f : BookResponse → string) t (q : list BookResponse) :
  filter (λ b, contains (f b) (lower t)) q = filter (λ b, contains (f b) t) q.
Proof.
  apply list_filter_iff. intros b. by rewrite (proj1 (contains_lower _ _)).
Qed.

Lemma search_books_lower (title_q author_q : option string) (year_q : option Z)
    (db : table) :
  search_books (lower <$> title_q) (lower <$> author_q) year_q db
  = search_books title_q author_q year_q db.
Proof.
  unfold search_books.
  destruct title_q as [t|], author_q as [a|]; simpl;
    rewrite ?truthy_str_lower;
    repeat match goal with |- context [truthy_str ?x] => destruct (truthy_str x) end;
    by rewrite ?(filter_contains_lower title), ?(filter_contains_lower author).
Qed.

(** X17.  Two searches whose title terms and whose author terms are the
    same up to the case of ASCII letters return the same books. *)
Theorem search_books_any_case (title1 title2 author1 author2 : option string)
    (year_q : option Z) (db : table) :
  lower <$> title1 = lower <$> title2 →
  lower <$> author1 = lower <$> author2 →
  search_books title1 author1 year_q db = search_books title2 author2 year_q db.
Proof.
  intros Ht Ha.
  rewrite <- (search_books_lower title1 author1), <- (search_books_lower title2 author2).
  by rewrite Ht, Ha.
Qed.

Lemma search_books_any_case_witness :
  lower <$> Some "DUNE" = lower <$> Some "dune"
  ∧ lower <$> None = lower <$> None
  ∧ search_books (Some "DUNE") None (Some 1965) shelf
    = search_books (Some "dune") None (Some 1965) shelf.
Proof.
  assert (Ht : lower <$> Some "DUNE" = lower <$> Some "dune") by reflexivity.
  assert (Ha : lower <$> (None : option string) = lower <$> None) by reflexivity.
  split; [exact Ht|]. split; [exact Ha|].
  exact (search_books_any_case (Some "DUNE") (Some "dune") None None (Some 1965) shelf Ht Ha).
Defined.

Lemma elem_of_search_books title_q author_q year_q db b :
  b ∈ search_books title_q author_q year_q db
  ↔ b ∈ get_all_books db
    ∧ (∀ t, title_q = Some t → t ≠ "" → contains (title b) t = true)
    ∧ (∀ a, author_q = Some a → a ≠ "" → contains (author b) a = true)
    ∧ (∀ y, year_q = Some y → y ≠ 0 → year b = Some y).
Proof.
  unfold search_books, get_all_books.
  assert (Hstr : ∀ (f : BookResponse → string) (o : option string) (q : list BookResponse),
             b ∈ match o with
                 | Some t => if truthy_str t then filter (λ b, contains (f b) t) q else q
                 | None => q
                 end
             ↔ b ∈ q ∧ ∀ t, o = Some t → t ≠ "" → contains (f b) t = true).
  { intros f [[|c t]|] q; simpl.
    - split; [|tauto]. intros Hb. split; [done|]. by intros t [= <-].
    - rewrite list_elem_of_filter, Is_true_true. split.
      + intros [H Hb]. split; [done|]. by intros t' [= <-].
      + intros [Hb H]. split; [|done]. by apply H.
    - split; [|tauto]. intros Hb. by split. }
  assert (Hy : ∀ q : list BookResponse,
             b ∈ match year_q with
                 | Some y => if truthy_int y then filter (λ b, sql_eq (year b) y) q else q
                 | None => q
                 end
             ↔ b ∈ q ∧ ∀ y, year_q = Some y → y ≠ 0 → year b = Some y).
  { intros q. destruct year_q as [y|]; simpl.
    - unfold truthy_int. destruct (Z.eqb_spec y 0) as [->|Hne]; simpl.
      + split; [|tauto]. intros Hb. split; [done|]. by intros y [= <-].
      + rewrite list_elem_of_filter. unfold sql_eq. split.
        * intros [H Hb]. split; [done|]. intros y' [= <-] _.
          destruct (year b) as [v|]; [|done]. apply Is_true_true, Z.eqb_eq in H. by subst.
        * intros [Hb H]. split; [|done]. rewrite (H y eq_refl Hne).
          apply Is_true_true, Z.eqb_refl.
    - split; [|tauto]. intros Hb. by split. }
  rewrite Hy, (Hstr author), (Hstr title). tauto.
Qed.

Lemma append_empty_r s : s ++ "" = s.
Proof. induction s as [|c s IH]; simpl; [done|]. by rewrite IH. Qed.

Lemma contains_self s : contains s s = true.
Proof.
  pose proof (contains_literal "" s "") as H. simpl in H. by rewrite append_empty_r in H.
Qed.

(** X18.  A book is found by a search for its own title, author and
    year in the table its creation leaves, whatever their values; for the
    books stored before, the result of that search is what it was. *)
Theorem create_book_found (book : BookCreate) (db : table) :
  (create_book book db).1
    ∈ search_books (Some (bc_title book)) (Some (bc_author book)) (bc_year book)
        (create_book book db).2
  ∧ ∀ b, b ∈ get_all_books db →
         (b ∈ search_books (Some (bc_title book)) (Some (bc_author book)) (bc_year book)
                (create_book book db).2
          ↔ b ∈ search_books (Some (bc_title book)) (Some (bc_author book)) (bc_year book)
                  db).
Proof.
  split.
  - apply elem_of_search_books. split_and!.
    + rewrite create_book_listed_last. apply elem_of_app. right. by left.
    + intros t [= <-] _. apply contains_self.
    + intros a [= <-] _. apply contains_self.
    + intros y Hy _. simpl. done.
  - intros b Hb. rewrite !elem_of_search_books, create_book_listed_last, elem_of_app.
    split; [|tauto]. intros ([Hin|Hin] & H); [tauto|]. tauto.
Qed.

Lemma ids_from_empty_witness :
  is_Some (serve_all [Create dune; Create emma; Delete 1] ∅ !! 2)
  ∧ 1 ≤ 2 ≤ Z.of_nat (length (assigned_all [Create dune; Create emma; Delete 1] ∅)).
Proof.
  assert (H : is_Some (serve_all [Create dune; Create emma; Delete 1] ∅ !! 2)).
  { eexists. vm_compute. reflexivity. }
  split; [exact H|].
  exact (ids_from_empty [Create dune; Create emma; Delete 1] 2 H).
Defined.

End BookApiFacts.
